(** * 3DCORE analytical flux rope base model

    A shallow embedding of [mfr3dcore/models/analytical/base.py]: the
    Euler-Rodrigues rotation kernels [er_compose], [er_get], [er_rot] and the
    class [AnalyticalFluxRopeModel].

    Numbers.  The program computes on float64.  The embedding idealises them
    as real numbers ([R]), so the algebraic statements below are statements
    of exact arithmetic; rounding is not modelled.

    Arrays.  A 1-D float array of three components is a [vec3], the four
    Euler-Rodrigues coefficients are a [coeffs].  The values a caller may hand
    to [transform_into] / [transform_from] (Python lists, numpy arrays of any
    number of dimensions, scalars) are the inductive types [pyval] and
    [ndarray]. *)

From Stdlib Require Import Reals Lra Psatz List Bool Arith Lia String.
Import ListNotations.

Open Scope R_scope.

Set Warnings "-register-all".

(* ================================================================== *)
(** ** Rotation kernels (module-level functions of base.py)             *)
(* ================================================================== *)

Definition vec3 : Type := (R * R * R)%type.
Definition coeffs : Type := (R * R * R * R)%type.

(** [er_compose], base.py lines 220-239. *)
Definition er_compose (er1 er2 : coeffs) : coeffs :=
  let '(a0, a1, a2, a3) := er1 in
  let '(b0, b1, b2, b3) := er2 in
  let era := a0 * b0 - a1 * b1 - a2 * b2 - a3 * b3 in
  let erb := a0 * b1 + a1 * b0 - a2 * b3 + a3 * b2 in
  let erc := a0 * b2 + a2 * b0 - a3 * b1 + a1 * b3 in
  let erd := a0 * b3 + a3 * b0 - a1 * b2 + a2 * b1 in
  (era, erb, erc, erd).

(** [np.radians]. *)
Definition radians (a : R) : R := a * PI / 180.

(** [er_get], base.py lines 245-263. *)
Definition er_get (a : R) (v : vec3) : coeffs :=
  let '(v0, v1, v2) := v in
  let arg := radians (a / 2) in
  (cos arg, v0 * sin arg, v1 * sin arg, v2 * sin arg).

(** [er_rot], base.py lines 269-298: the 3x3 matrix [m] row by row, then
    [np.dot(m, v)]. *)
Definition er_rot (v : vec3) (er : coeffs) : vec3 :=
  let '(v0, v1, v2) := v in
  let '(e0, e1, e2, e3) := er in
  let m00 := e0 ^ 2 + e1 ^ 2 - e2 ^ 2 - e3 ^ 2 in
  let m01 := 2 * (e1 * e2 - e0 * e3) in
  let m02 := 2 * (e1 * e3 + e0 * e2) in
  let m10 := 2 * (e1 * e2 + e0 * e3) in
  let m11 := e0 ^ 2 + e2 ^ 2 - e1 ^ 2 - e3 ^ 2 in
  let m12 := 2 * (e2 * e3 - e0 * e1) in
  let m20 := 2 * (e1 * e3 - e0 * e2) in
  let m21 := 2 * (e2 * e3 + e0 * e1) in
  let m22 := e0 ^ 2 + e3 ^ 2 - e1 ^ 2 - e2 ^ 2 in
  (m00 * v0 + m01 * v1 + m02 * v2,
   m10 * v0 + m11 * v1 + m12 * v2,
   m20 * v0 + m21 * v1 + m22 * v2).

(** Vocabulary of the specification, used to state the claims. *)

Definition norm2 (c : coeffs) : R :=
  let '(c0, c1, c2, c3) := c in c0 * c0 + c1 * c1 + c2 * c2 + c3 * c3.

Definition is_unit (c : coeffs) : Prop := norm2 c = 1.

Definition vnorm2 (v : vec3) : R :=
  let '(v0, v1, v2) := v in v0 * v0 + v1 * v1 + v2 * v2.

(** Conjugate: same scalar component, negated vector components. *)
Definition conjugate (c : coeffs) : coeffs :=
  let '(c0, c1, c2, c3) := c in (c0, - c1, - c2, - c3).

Definition er_identity : coeffs := (1, 0, 0, 0).

(** The textbook Hamilton product of quaternions (i*j = k), written from the
    specification's words "standard quaternion-product rule", to be compared
    with [er_compose]. *)
Definition hamilton (p q : coeffs) : coeffs :=
  let '(p0, p1, p2, p3) := p in
  let '(q0, q1, q2, q3) := q in
  (p0 * q0 - p1 * q1 - p2 * q2 - p3 * q3,
   p0 * q1 + p1 * q0 + p2 * q3 - p3 * q2,
   p0 * q2 - p1 * q3 + p2 * q0 + p3 * q1,
   p0 * q3 + p1 * q2 - p2 * q1 + p3 * q0).

(* ================================================================== *)
(** ** Python values handed to the transforms                           *)
(* ================================================================== *)

(** A numpy array: a scalar (zero dimensions; a Python float behaves the same
    in every test the program makes) or a sequence of sub-arrays.  Iterating
    over [NdArr items] yields [items]. *)
Inductive ndarray : Type :=
| NdScalar (r : R)
| NdArr (items : list ndarray).

(** What [transform_into] and [transform_from] accept: a numpy array or a
    Python list of further values. *)
Inductive pyval : Type :=
| PyArr (a : ndarray)
| PyList (items : list pyval).

(** [x.ndim]: the array [np.array([])] has one dimension. *)
Fixpoint ndim (a : ndarray) : nat :=
  match a with
  | NdScalar _ => 0
  | NdArr [] => 1
  | NdArr (r :: _) => S (ndim r)
  end.

(** The 1-D float array holding the components of [v]. *)
Definition of_vec3 (v : vec3) : ndarray :=
  let '(v0, v1, v2) := v in NdArr [NdScalar v0; NdScalar v1; NdScalar v2].

(** A point as a caller writes it: a 1-D numpy array, or a flat Python list. *)
Definition point (v : vec3) : pyval := PyArr (of_vec3 v).

Definition flat_list (v : vec3) : pyval :=
  let '(v0, v1, v2) := v in
  PyList [PyArr (NdScalar v0); PyArr (NdScalar v1); PyArr (NdScalar v2)].

(** The components of a 1-D array of floats; [None] for anything else. *)
Fixpoint scalars (items : list ndarray) : option (list R) :=
  match items with
  | [] => Some []
  | NdScalar r :: t =>
      match scalars t with Some l => Some (r :: l) | None => None end
  | NdArr _ :: _ => None
  end.

(* ================================================================== *)
(** ** Exceptions, the model object and the method monad                *)
(* ================================================================== *)

Inductive exn : Type :=
| ValueError (msg : string)
| TypeError
| NotImplementedError.

Inductive Result (A : Type) : Type :=
| Ok (a : A)
| Raise (e : exn).
Arguments Ok {A} a.
Arguments Raise {A} e.

(** The state: the ordered parameters handed to the capabilities as
    [*self.state]. *)
Definition State : Type := list R.

Definition datetime : Type := R.

(** The capabilities work on points: curvilinear and cartesian coordinates
    are both 1-D arrays of three floats. *)
Definition transform_fn : Type := vec3 -> State -> vec3.
Definition jacobian_fn : Type := vec3 -> State -> vec3 * vec3 * vec3.
Definition collision_fn : Type := vec3 -> State -> bool.

(** [scipy.optimize.least_squares(fun, x0).x]: the solver is handed a
    residual function of the unknown alone and an initial guess. *)
Definition solver : Type := (vec3 -> vec3) -> vec3 -> vec3.

(** The callable stored in [self.f]: the caller's analytic inverse, or the
    lambda of lines 103-105, a closure over [self] and the solver. *)
Inductive inverse : Type :=
| Analytic (fn : transform_fn)
| LeastSquares (least_squares : solver).

(** The instance attributes.  [f_appr] keeps its class default [None] unless
    the constructor stores [f0]; the coefficients are [None] until
    [update_er_coefficients] has run. *)
Record Model : Type := mkModel {
  t0 : datetime;
  tt : datetime;
  lon : R;
  lat : R;
  inc : R;
  g : transform_fn;
  jac : jacobian_fn;
  h : transform_fn;
  f : inverse;
  f_appr : option transform_fn;
  state : State;
  er_coeff_from : option coeffs;
  er_coeff_into : option coeffs
}.

(** Calls of the caller's capabilities, in the order they happen. *)
Inductive event : Type :=
| CallF (v : vec3) (st : State)
| CallF0 (v : vec3) (st : State)
| CallLeastSquares (x0 : vec3)
| CallG (q : vec3) (st : State)
| CallH (q : vec3) (st : State)
| CallCollision (q : vec3) (st : State).

Record World : Type := mkWorld {
  self : Model;
  calls : list event
}.

(** A method: it reads and may update the object, records the capability
    calls it makes, and returns or raises. *)
Definition M (A : Type) : Type := World -> Result A * World.

Definition ret {A} (a : A) : M A := fun w => (Ok a, w).

Definition raise {A} (e : exn) : M A := fun w => (Raise e, w).

Definition bind {A B} (c : M A) (k : A -> M B) : M B :=
  fun w =>
    match c w with
    | (Ok a, w') => k a w'
    | (Raise e, w') => (Raise e, w')
    end.

Notation "x <- c ;; k" := (bind c (fun x => k))
  (at level 61, c at next level, right associativity).
Notation "c ;;; k" := (bind c (fun _ => k))
  (at level 61, right associativity).

Definition get_self : M Model := fun w => (Ok (self w), w).

Definition put_self (m : Model) : M unit :=
  fun w => (Ok Datatypes.tt, mkWorld m (calls w)).

Definition log (e : event) : M unit :=
  fun w => (Ok Datatypes.tt, mkWorld (self w) (calls w ++ [e])).

(** A list comprehension [[c(_v) for _v in l]]: left to right, stopping at
    the first exception. *)
Definition mapM {A B} (c : A -> M B) : list A -> M (list B) :=
  fix go (l : list A) : M (list B) :=
    match l with
    | [] => ret []
    | x :: t => y <- c x ;; ys <- go t ;; ret (y :: ys)
    end.

(* ================================================================== *)
(** ** Calls into compiled kernels and into the capabilities            *)
(* ================================================================== *)

(** A value passed where a point is expected.  The kernels are compiled for
    [float64[:]] arguments, so anything that is not a 1-D float array is
    refused with a type error, and [np.dot] refuses a 1-D array that has not
    three components.  The capabilities are taken to be typed the same way. *)
Definition as_vec3 (a : ndarray) : Result vec3 :=
  match a with
  | NdScalar _ => Raise TypeError
  | NdArr items =>
      match scalars items with
      | Some [v0; v1; v2] => Ok (v0, v1, v2)
      | Some _ => Raise (ValueError "incompatible array sizes for np.dot")
      | None => Raise TypeError
      end
  end.

Definition lift {A} (r : Result A) : M A :=
  match r with Ok a => ret a | Raise e => raise e end.

(** [er_rot(x, er)] as called from the methods: [er] is an attribute that is
    [None] before [update_er_coefficients] has run. *)
Definition call_er_rot (x : ndarray) (er : option coeffs) : M vec3 :=
  match er with
  | None => raise TypeError
  | Some c => v <- lift (as_vec3 x) ;; ret (er_rot v c)
  end.

(** [self.f(v, *args)].  With an analytic inverse this is the caller's [f].
    Otherwise it is the lambda of lines 103-105,
    [spopt.least_squares(self.g, self.f_appr(v, *args)).x]: the residual
    handed to the solver is [self.g] itself, which the solver calls with the
    unknown alone. *)
Definition call_f (v : vec3) (st : State) : M vec3 :=
  m <- get_self ;;
  match f m with
  | Analytic fn => log (CallF v st) ;;; ret (fn v st)
  | LeastSquares least_squares =>
      match f_appr m with
      | None => raise TypeError
      | Some f0 =>
          log (CallF0 v st) ;;;
          let x0 := f0 v st in
          log (CallLeastSquares x0) ;;;
          ret (least_squares (fun q => g m q []) x0)
      end
  end.

(** [self.g(q, *self.state)].  [g] is typed on points: for a 1-D array of
    three floats this is the call of line 176; any other argument is taken
    to be refused before [g] runs, where the source leaves that to [g]. *)
Definition call_g (q : ndarray) : M vec3 :=
  m <- get_self ;;
  v <- lift (as_vec3 q) ;;
  log (CallG v (state m)) ;;;
  ret (g m v (state m)).

(** [self.h(v, *self.state)], lines 134 and 140, typed on points in the
    same way. *)
Definition call_h (q : ndarray) : M vec3 :=
  m <- get_self ;;
  v <- lift (as_vec3 q) ;;
  log (CallH v (state m)) ;;;
  ret (h m v (state m)).

(** [collision(v, *self.state)], line 133, typed on points in the same
    way. *)
Definition call_collision (collision : collision_fn) (q : ndarray) : M bool :=
  m <- get_self ;;
  v <- lift (as_vec3 q) ;;
  log (CallCollision v (state m)) ;;;
  ret (collision v (state m)).

(* ================================================================== *)
(** ** class AnalyticalFluxRopeModel                                    *)
(* ================================================================== *)

Definition ux : vec3 := (1, 0, 0).
Definition uy : vec3 := (0, 1, 0).
Definition uz : vec3 := (0, 0, 1).

(** [update_er_coefficients], lines 178-203. *)
Definition update_er_coefficients : M unit :=
  m <- get_self ;;
  let c1 := er_get (lon m) uz in
  let c2 := er_get (- lat m) (er_rot uy c1) in
  let c3 := er_get (inc m) (er_rot ux (er_compose c1 c2)) in
  let from := er_compose (er_compose c1 c2) c3 in
  let '(e0, e1, e2, e3) := from in
  put_self (mkModel (t0 m) (tt m) (lon m) (lat m) (inc m) (g m) (jac m) (h m)
                    (f m) (f_appr m) (state m)
                    (Some from) (Some (e0, - e1, - e2, - e3))).

(** [propagate] and [update_state_parameters], lines 109-117 and 205-213. *)
Definition propagate (time : datetime) : M unit := raise NotImplementedError.

Definition update_state_parameters : M unit := raise NotImplementedError.

Definition config_error : exn :=
  ValueError
    "inverse transform f or its approximation f_appr must be given".

(** [__init__], lines 55-107.  [least_squares] is the imported solver the
    lambda closes over.  The class default of [state] is the empty tuple and
    that of [f_appr] is [None]. *)
Definition init (least_squares : solver)
    (time : datetime) (longitude latitude inclination : R)
    (g : transform_fn) (jac : jacobian_fn) (h : transform_fn)
    (f f0 : option transform_fn) : Result Model :=
  match f, f0 with
  | None, None => Raise config_error
  | _, _ =>
      let m :=
        match f with
        | Some fn =>
            mkModel time time longitude latitude inclination g jac h
                    (Analytic fn) None [] None None
        | None =>
            mkModel time time longitude latitude inclination g jac h
                    (LeastSquares least_squares) f0 [] None None
        end in
      match update_er_coefficients (mkWorld m []) with
      | (Ok _, w) => Ok (self w)
      | (Raise e, _) => Raise e
      end
  end.

(** The else-branch of [transform_into], line 160. *)
Definition into_point (x : ndarray) : M ndarray :=
  m <- get_self ;;
  v <- call_er_rot x (er_coeff_into m) ;;
  q <- call_f v (state m) ;;
  ret (of_vec3 q).

(** The else-branch of [transform_from], line 176. *)
Definition from_point (q : ndarray) : M ndarray :=
  m <- get_self ;;
  x <- call_g q ;;
  v <- call_er_rot (of_vec3 x) (er_coeff_from m) ;;
  ret (of_vec3 v).

(** The test of lines 156-157 and 172-173. *)
Definition is_batch (x : pyval) : bool :=
  match x with
  | PyList _ => true
  | PyArr a => (1 <? ndim a)%nat
  end.

(** The dispatch of lines 156-160 and 172-176 for a transform whose
    single-point branch is [single].  On a numpy array: *)
Fixpoint transform_array (single : ndarray -> M ndarray) (x : ndarray)
  : M ndarray :=
  match x with
  | NdScalar _ => single x
  | NdArr items =>
      if (1 <? ndim x)%nat
      then rs <- mapM (transform_array single) items ;; ret (NdArr rs)
      else single x
  end.

(** and on any value: *)
Fixpoint transform (single : ndarray -> M ndarray) (x : pyval) : M ndarray :=
  match x with
  | PyList items => rs <- mapM (transform single) items ;; ret (NdArr rs)
  | PyArr a => transform_array single a
  end.

(** [transform_into], lines 146-160, and [transform_from], lines 162-176. *)
Definition transform_into : pyval -> M ndarray := transform into_point.

Definition transform_from : pyval -> M ndarray := transform from_point.

(** [magnetic_field], lines 119-143. *)
Definition magnetic_field (v : pyval) (collision : option collision_fn)
  : M (ndarray * bool) :=
  v <- transform_into v ;;
  m <- get_self ;;
  match collision with
  | Some coll =>
      c <- call_collision coll v ;;
      if c then
        hq <- call_h v ;;
        b <- call_er_rot (of_vec3 hq) (er_coeff_from m) ;;
        ret (of_vec3 b, true)
      else
        ret (of_vec3 (0, 0, 0), false)
  | None =>
      hq <- call_h v ;;
      b <- call_er_rot (of_vec3 hq) (er_coeff_from m) ;;
      ret (of_vec3 b, true)
  end.

(* ================================================================== *)
(** ** Effect summaries of methods                                  *)
(* ================================================================== *)

(** Collecting the results of a comprehension run element by element: the
    first exception, from the left, wins. *)
Fixpoint collect {A} (rs : list (Result A)) : Result (list A) :=
  match rs with
  | [] => Ok []
  | Ok a :: t =>
      match collect t with Ok l => Ok (a :: l) | Raise e => Raise e end
  | Raise e :: _ => Raise e
  end.

Definition fmap {A B} (fn : A -> B) (r : Result A) : Result B :=
  match r with Ok a => Ok (fn a) | Raise e => Raise e end.

(** [tame P c]: the method [c] leaves the object as it found it, the calls
    it adds to the trace all satisfy [P] (which may look at the object), and
    what it returns depends on the object only, not on the trace. *)
Definition tame {A} (P : Model -> event -> Prop) (c : M A) : Prop :=
  forall w,
    self (snd (c w)) = self w /\
    (exists evs, calls (snd (c w)) = calls w ++ evs /\ Forall (P (self w)) evs) /\
    (forall w', self w' = self w -> fst (c w') = fst (c w)).

(** The capability calls each transform may make, given the object. *)
Definition into_events (m : Model) (e : event) : Prop :=
  match e with
  | CallF _ _ => exists fn, f m = Analytic fn
  | CallF0 _ _ | CallLeastSquares _ => exists ls, f m = LeastSquares ls
  | _ => False
  end.

Definition from_events (m : Model) (e : event) : Prop :=
  match e with
  | CallG _ _ => True
  | _ => False
  end.

Definition field_events (m : Model) (e : event) : Prop :=
  match e with
  | CallH _ _ | CallCollision _ _ => True
  | _ => into_events m e
  end.

Definition is_call_h (e : event) : bool :=
  match e with CallH _ _ => true | _ => false end.

Definition is_call_f0 (e : event) : bool :=
  match e with CallF0 _ _ => true | _ => false end.

(* ================================================================== *)
(** ** Vocabulary of the claims                                     *)
(* ================================================================== *)

Definition succeeds {A} (r : Result A) : bool :=
  match r with Ok _ => true | Raise _ => false end.

Definition absent {A} (o : option A) : bool :=
  match o with None => true | Some _ => false end.

Definition exactly_one {A B} (a : option A) (b : option B) : bool :=
  xorb (absent a) (absent b).

(** The forward coefficients [update_er_coefficients] derives from the three
    angles (lines 190-194), as a function of the angles. *)
Definition forward_coeffs (lo la ic : R) : coeffs :=
  let c1 := er_get lo uz in
  let c2 := er_get (- la) (er_rot uy c1) in
  let c3 := er_get ic (er_rot ux (er_compose c1 c2)) in
  er_compose (er_compose c1 c2) c3.

(** What [self.f(v, *st)] returns, as a function of the object. *)
Definition apply_f (m : Model) (v : vec3) (st : State) : Result vec3 :=
  match f m with
  | Analytic fn => Ok (fn v st)
  | LeastSquares ls =>
      match f_appr m with
      | None => Raise TypeError
      | Some f0 => Ok (ls (fun q => g m q []) (f0 v st))
      end
  end.

(** The round trip [transform_from(transform_into(x))]. *)
Definition round_trip (x : pyval) : M ndarray :=
  q <- transform_into x ;; transform_from (PyArr q).

(** The attributes C8 names keep their values from [m] to [m']. *)
Definition unchanged (m m' : Model) : Prop :=
  er_coeff_from m' = er_coeff_from m /\
  er_coeff_into m' = er_coeff_into m /\
  state m' = state m /\
  lon m' = lon m /\ lat m' = lat m /\ inc m' = inc m.

(** The elements a batch is iterated over. *)
Definition elements (x : pyval) : list pyval :=
  match x with
  | PyList items => items
  | PyArr (NdArr items) => map PyArr items
  | PyArr (NdScalar _) => []
  end.

(** [t] treats the batch [x] element by element: its result is the array of
    the results of the elements, in order, each computed from the same object
    as if the element were transformed alone (an element that raises makes
    the batch raise); so a batch that returns, returns an array of as many
    results as it has elements. *)
Definition elementwise (t : pyval -> M ndarray) (x : pyval) (w : World) : Prop :=
  fst (t x w) = fmap NdArr (collect (map (fun e => fst (t e w)) (elements x)))
  /\
  forall r, fst (t x w) = Ok r ->
            exists rs, r = NdArr rs /\
                       Forall2 (fun e y => fst (t e w) = Ok y) (elements x) rs.

Definition vsub (a b : vec3) : vec3 :=
  let '(a0, a1, a2) := a in
  let '(b0, b1, b2) := b in (a0 - b0, a1 - b1, a2 - b2).

(** The fallback as the specification words it: minimise the residual
    [g(q, state) - x] over [q], starting from [f0(x, state)]. *)
Definition spec_fallback (ls : solver) (g0 f0 : transform_fn)
    (x : vec3) (st : State) : vec3 :=
  ls (fun q => vsub (g0 q st) x) (f0 x st).

(** The solver, handed the residual [r] and the guess [x0], returns a global
    minimiser of the sum of squares of [r]. *)
Definition minimises (ls : solver) (r : vec3 -> vec3) (x0 : vec3) : Prop :=
  forall q, vnorm2 (r (ls r x0)) <= vnorm2 (r q).

(** The batch branch of a transform [t], lines 158 and 174:
    [np.array([t(_v) for _v in x])]. *)
Definition batch_branch (t : pyval -> M ndarray) (x : pyval) : M ndarray :=
  rs <- mapM t (elements x) ;; ret (NdArr rs).

(** Vector algebra used to state what a rotation does. *)
Definition vadd (a b : vec3) : vec3 :=
  let '(a0, a1, a2) := a in
  let '(b0, b1, b2) := b in (a0 + b0, a1 + b1, a2 + b2).

Definition vscale (k : R) (v : vec3) : vec3 :=
  let '(v0, v1, v2) := v in (k * v0, k * v1, k * v2).

Definition dot (a b : vec3) : R :=
  let '(a0, a1, a2) := a in
  let '(b0, b1, b2) := b in a0 * b0 + a1 * b1 + a2 * b2.

Definition cross (a b : vec3) : vec3 :=
  let '(a0, a1, a2) := a in
  let '(b0, b1, b2) := b in
  (a1 * b2 - a2 * b1, a2 * b0 - a0 * b2, a0 * b1 - a1 * b0).

(** The antipodal coefficients: every component negated. *)
Definition negate (c : coeffs) : coeffs :=
  let '(c0, c1, c2, c3) := c in (- c0, - c1, - c2, - c3).

(** The other round trip, [transform_into(transform_from(q))]. *)
Definition round_trip_back (q : pyval) : M ndarray :=
  x <- transform_from q ;; transform_into (PyArr x).

Definition is_call_g (e : event) : bool :=
  match e with CallG _ _ => true | _ => false end.

Definition is_inverse_call (e : event) : bool :=
  match e with
  | CallF _ _ | CallF0 _ _ | CallLeastSquares _ => true
  | _ => false
  end.

(** The object with its three angle attributes overwritten, as an assignment
    to [lon], [lat] and [inc] from outside leaves it. *)
Definition set_angles (m : Model) (lo la ic : R) : Model :=
  mkModel (t0 m) (tt m) lo la ic (g m) (jac m) (h m) (f m) (f_appr m)
          (state m) (er_coeff_from m) (er_coeff_into m).

(* ================================================================== *)
(** ** Sample capabilities and inputs                               *)
(* ================================================================== *)

(** The identity chart: curvilinear and cartesian coordinates coincide. *)
Definition identity_fn : transform_fn := fun q _ => q.

Definition unit_jacobian : jacobian_fn := fun _ _ => (ux, uy, uz).

(** A half turn about the x axis, and a third of a turn about (1,1,1). *)
Definition half_turn_x : coeffs := (0, 1, 0, 0).

Definition third_turn : coeffs := (1 / 2, 1 / 2, 1 / 2, 1 / 2).

(** A model at the identity orientation over the identity chart, and five
    points. *)
Definition sample_model : Model :=
  mkModel 0 0 0 0 0 identity_fn unit_jacobian identity_fn
          (Analytic identity_fn) None [] (Some er_identity) (Some er_identity).

Definition sample_world : World := mkWorld sample_model [].

Definition five_points : list vec3 :=
  [(1, 0, 0); (0, 1, 0); (0, 0, 1); (1, 2, 3); (4, 5, 6)].

(** One Gauss-Newton step for a residual whose Jacobian is the identity;
    it lands on the minimiser of such a residual. *)
Definition unit_newton_step : solver := fun r x0 => vsub x0 (r x0).

(* ================================================================== *)
(** * Proofs                                                         *)
(* ================================================================== *)

Ltac destruct_tuples :=
  repeat match goal with
         | v : vec3 |- _ => destruct v as [[? ?] ?]
         | c : coeffs |- _ => destruct c as [[[? ?] ?] ?]
         end.

Ltac tuple_ring :=
  intros; destruct_tuples; cbn [er_compose er_rot conjugate hamilton norm2 vnorm2];
  repeat match goal with |- (_, _) = (_, _) => f_equal end; ring.

(* ================================================================== *)
(** ** Rotation algebra: norms, conjugates and composition              *)
(* ================================================================== *)

Lemma er_rot_compose (v : vec3) (a b : coeffs) :
  er_rot v (er_compose a b) = er_rot (er_rot v a) b.
Proof. tuple_ring. Qed.

Lemma er_compose_hamilton (a b : coeffs) : er_compose a b = hamilton b a.
Proof. tuple_ring. Qed.

Lemma norm2_er_compose (a b : coeffs) :
  norm2 (er_compose a b) = norm2 a * norm2 b.
Proof. tuple_ring. Qed.

Lemma vnorm2_er_rot (v : vec3) (c : coeffs) :
  vnorm2 (er_rot v c) = norm2 c * norm2 c * vnorm2 v.
Proof. tuple_ring. Qed.

Lemma er_compose_conjugate_r (c : coeffs) :
  er_compose c (conjugate c) = (norm2 c, 0, 0, 0).
Proof. tuple_ring. Qed.

Lemma er_compose_conjugate_l (c : coeffs) :
  er_compose (conjugate c) c = (norm2 c, 0, 0, 0).
Proof. tuple_ring. Qed.

Lemma er_rot_conjugate (v : vec3) (c : coeffs) :
  er_rot (er_rot v (conjugate c)) c
  = (let '(v0, v1, v2) := v in
     let n := norm2 c * norm2 c in (n * v0, n * v1, n * v2)).
Proof. tuple_ring. Qed.

Lemma er_rot_conjugate_unit (v : vec3) (c : coeffs) :
  is_unit c -> er_rot (er_rot v (conjugate c)) c = v.
Proof.
  intros Hc. rewrite er_rot_conjugate. unfold is_unit in Hc. rewrite Hc.
  destruct v as [[v0 v1] v2]. cbv beta iota zeta.
  repeat match goal with |- (_, _) = (_, _) => f_equal end; ring.
Qed.

Lemma norm2_er_get (a : R) (v : vec3) :
  vnorm2 v = 1 -> is_unit (er_get a v).
Proof.
  destruct v as [[v0 v1] v2]. unfold is_unit, er_get, norm2, vnorm2.
  intros Hv. set (x := radians (a / 2)).
  pose proof (sin2_cos2 x) as Hsc. unfold Rsqr in Hsc.
  replace (cos x * cos x + v0 * sin x * (v0 * sin x)
           + v1 * sin x * (v1 * sin x) + v2 * sin x * (v2 * sin x))
    with (cos x * cos x + (v0 * v0 + v1 * v1 + v2 * v2) * (sin x * sin x))
    by ring.
  rewrite Hv. lra.
Qed.

Lemma vnorm2_er_rot_unit (v : vec3) (c : coeffs) :
  is_unit c -> vnorm2 v = 1 -> vnorm2 (er_rot v c) = 1.
Proof.
  unfold is_unit. intros Hc Hv. rewrite vnorm2_er_rot, Hc, Hv. ring.
Qed.

Lemma is_unit_er_compose (a b : coeffs) :
  is_unit a -> is_unit b -> is_unit (er_compose a b).
Proof.
  unfold is_unit. intros Ha Hb. rewrite norm2_er_compose, Ha, Hb. ring.
Qed.

Lemma vnorm2_ux : vnorm2 ux = 1.
Proof. unfold vnorm2, ux. ring. Qed.

Lemma vnorm2_uy : vnorm2 uy = 1.
Proof. unfold vnorm2, uy. ring. Qed.

Lemma vnorm2_uz : vnorm2 uz = 1.
Proof. unfold vnorm2, uz. ring. Qed.

(** The coefficients [update_er_coefficients] stores have unit norm, for
    every longitude, latitude and inclination. *)
Lemma update_er_coefficients_spec (w : World) :
  exists c : coeffs,
    is_unit c /\
    update_er_coefficients w
    = (Ok Datatypes.tt,
       mkWorld
         (mkModel (t0 (self w)) (tt (self w)) (lon (self w)) (lat (self w))
                  (inc (self w)) (g (self w)) (jac (self w)) (h (self w))
                  (f (self w)) (f_appr (self w)) (state (self w))
                  (Some c) (Some (conjugate c)))
         (calls w)).
Proof.
  set (m := self w).
  set (c1 := er_get (lon m) uz).
  set (c2 := er_get (- lat m) (er_rot uy c1)).
  set (c3 := er_get (inc m) (er_rot ux (er_compose c1 c2))).
  assert (H1 : is_unit c1) by (apply norm2_er_get, vnorm2_uz).
  assert (H2 : is_unit c2)
    by (apply norm2_er_get, vnorm2_er_rot_unit; [exact H1 | apply vnorm2_uy]).
  assert (H12 : is_unit (er_compose c1 c2)) by (apply is_unit_er_compose; assumption).
  assert (H3 : is_unit c3)
    by (apply norm2_er_get, vnorm2_er_rot_unit; [exact H12 | apply vnorm2_ux]).
  exists (er_compose (er_compose c1 c2) c3). split.
  - apply is_unit_er_compose; assumption.
  - unfold update_er_coefficients, bind, get_self, put_self.
    fold m. fold c1. fold c2. fold c3.
    destruct (er_compose (er_compose c1 c2) c3) as [[[e0 e1] e2] e3].
    reflexivity.
Qed.

Lemma update_er_coefficients_stores (w : World) :
  er_coeff_from (self (snd (update_er_coefficients w)))
  = Some (forward_coeffs (lon (self w)) (lat (self w)) (inc (self w))).
Proof.
  unfold update_er_coefficients, forward_coeffs, bind, get_self, put_self.
  cbn [fst snd].
  destruct (er_compose _ _) as [[[e0 e1] e2] e3]. reflexivity.
Qed.

(** Half-angle formulas in degrees. *)
Lemma radians_double (a : R) : radians a = 2 * radians (a / 2).
Proof. unfold radians. field. Qed.

Lemma cos_radians_half (a : R) :
  cos (radians (a / 2)) * cos (radians (a / 2))
  - sin (radians (a / 2)) * sin (radians (a / 2)) = cos (radians a).
Proof. rewrite (radians_double a). symmetry. apply cos_2a. Qed.

Lemma sin_radians_half (a : R) :
  2 * sin (radians (a / 2)) * cos (radians (a / 2)) = sin (radians a).
Proof. rewrite (radians_double a). symmetry. apply sin_2a. Qed.

Lemma sin2_cos2_mult (x : R) : cos x * cos x + sin x * sin x = 1.
Proof. pose proof (sin2_cos2 x) as H. unfold Rsqr in H. lra. Qed.

(** A rotation about the axis [v] leaves [v] where it is. *)
Lemma er_rot_own_axis (a : R) (v : vec3) :
  vnorm2 v = 1 -> er_rot v (er_get a v) = v.
Proof.
  destruct v as [[v0 v1] v2]. unfold vnorm2, er_get, er_rot. intros Hv.
  set (c := cos (radians (a / 2))). set (s := sin (radians (a / 2))).
  assert (Hcs : c * c + s * s = 1) by apply sin2_cos2_mult.
  repeat match goal with |- (_, _) = (_, _) => f_equal end.
  - transitivity (v0 * (c * c + s * s * (v0 * v0 + v1 * v1 + v2 * v2)));
      [ring | rewrite Hv, Rmult_1_r, Hcs; ring].
  - transitivity (v1 * (c * c + s * s * (v0 * v0 + v1 * v1 + v2 * v2)));
      [ring | rewrite Hv, Rmult_1_r, Hcs; ring].
  - transitivity (v2 * (c * c + s * s * (v0 * v0 + v1 * v1 + v2 * v2)));
      [ring | rewrite Hv, Rmult_1_r, Hcs; ring].
Qed.

(** Turning the longitude direction [(a, b, 0)] about the horizontal axis
    [(-b, a, 0)] perpendicular to it. *)
Lemma er_rot_tilt (a b c s : R) :
  a * a + b * b = 1 ->
  er_rot (a, b, 0) (c, - b * s, a * s, 0 * s)
  = (a * (c * c - s * s), b * (c * c - s * s), - (2 * s * c)).
Proof.
  intros Hab. unfold er_rot.
  repeat match goal with |- (_, _) = (_, _) => f_equal end.
  - transitivity (a * c * c - a * s * s * (a * a + b * b));
      [ring | rewrite Hab; ring].
  - transitivity (b * c * c - b * s * s * (a * a + b * b));
      [ring | rewrite Hab; ring].
  - transitivity (- (2 * s * c) * (a * a + b * b));
      [ring | rewrite Hab; ring].
Qed.

(** The design behind the order of [er_compose]: the forward coefficients
    send the x axis, along which the rope propagates in its own frame, to the
    direction of the given longitude and latitude; the inclination turns
    about that direction and leaves it in place. *)
Lemma propagation_direction (lo la ic : R) :
  er_rot ux (forward_coeffs lo la ic)
  = (cos (radians lo) * cos (radians la),
     sin (radians lo) * cos (radians la),
     sin (radians la)).
Proof.
  unfold forward_coeffs.
  set (c1 := er_get lo uz).
  set (c2 := er_get (- la) (er_rot uy c1)).
  assert (H1 : is_unit c1) by (apply norm2_er_get, vnorm2_uz).
  assert (H2 : is_unit c2)
    by (apply norm2_er_get, vnorm2_er_rot_unit; [exact H1 | apply vnorm2_uy]).
  assert (H12 : is_unit (er_compose c1 c2))
    by (apply is_unit_er_compose; assumption).
  rewrite er_rot_compose.
  rewrite er_rot_own_axis by (apply vnorm2_er_rot_unit; [exact H12 | apply vnorm2_ux]).
  rewrite er_rot_compose.
  assert (Hx : er_rot ux c1 = (cos (radians lo), sin (radians lo), 0)).
  { unfold c1, er_get, er_rot, ux, uz.
    rewrite <- (cos_radians_half lo), <- (sin_radians_half lo).
    repeat match goal with |- (_, _) = (_, _) => f_equal end; ring. }
  assert (Hy : er_rot uy c1 = (- sin (radians lo), cos (radians lo), 0)).
  { unfold c1, er_get, er_rot, uy, uz.
    rewrite <- (cos_radians_half lo), <- (sin_radians_half lo).
    repeat match goal with |- (_, _) = (_, _) => f_equal end; ring. }
  unfold c2. rewrite Hx, Hy. unfold er_get.
  rewrite er_rot_tilt by apply sin2_cos2_mult.
  rewrite (cos_radians_half (- la)), (sin_radians_half (- la)).
  replace (radians (- la)) with (- radians la) by (unfold radians; field).
  rewrite cos_neg, sin_neg.
  repeat match goal with |- (_, _) = (_, _) => f_equal end; ring.
Qed.

(** With all three angles zero the forward coefficients are the identity,
    as [sample_model] has them. *)
Lemma identity_orientation : forward_coeffs 0 0 0 = er_identity.
Proof.
  unfold forward_coeffs, er_identity.
  cbv [er_get er_rot er_compose ux uy uz].
  replace (radians (- 0 / 2)) with 0 by (unfold radians; field).
  replace (radians (0 / 2)) with 0 by (unfold radians; field).
  rewrite cos_0, sin_0.
  repeat match goal with |- (_, _) = (_, _) => f_equal end; ring.
Qed.

(* ================================================================== *)
(** ** Induction on nested values                                       *)
(* ================================================================== *)

Lemma ndarray_nested_ind (P : ndarray -> Prop) :
  (forall r, P (NdScalar r)) ->
  (forall items, Forall P items -> P (NdArr items)) ->
  forall a, P a.
Proof.
  intros Hs Ha. fix IH 1. intros [r | items].
  - apply Hs.
  - apply Ha. induction items as [| a t IHt]; constructor; [apply IH | exact IHt].
Qed.

Lemma pyval_nested_ind (P : pyval -> Prop) :
  (forall a, P (PyArr a)) ->
  (forall items, Forall P items -> P (PyList items)) ->
  forall x, P x.
Proof.
  intros Ha Hl. fix IH 1. intros [a | items].
  - apply Ha.
  - apply Hl. induction items as [| x t IHt]; constructor; [apply IH | exact IHt].
Qed.

(* ================================================================== *)
(** ** The methods are tame                                             *)
(* ================================================================== *)

Section Tame.
Context {P : Model -> event -> Prop}.

Lemma tame_ret {A} (a : A) : tame P (ret a).
Proof.
  intros w. cbn. repeat split; auto.
  exists []. rewrite app_nil_r. auto.
Qed.

Lemma tame_raise {A} (e : exn) : tame P (@raise A e).
Proof.
  intros w. cbn. repeat split; auto.
  exists []. rewrite app_nil_r. auto.
Qed.

Lemma tame_lift {A} (r : Result A) : tame P (lift r).
Proof. destruct r; [apply tame_ret | apply tame_raise]. Qed.

Lemma tame_bind {A B} (c : M A) (k : A -> M B) :
  tame P c -> (forall a, tame P (k a)) -> tame P (bind c k).
Proof.
  intros Hc Hk w. unfold bind.
  destruct (Hc w) as (Hs & (evs & Hcalls & Hevs) & Hblind).
  destruct (c w) as [[a | e] w1] eqn:Ecw; cbn [fst snd] in *.
  - destruct (Hk a w1) as (Hs' & (evs' & Hcalls' & Hevs') & Hblind').
    split; [congruence |]. split.
    + exists (evs ++ evs'). rewrite Hcalls', Hcalls, app_assoc. split; [reflexivity |].
      apply Forall_app. split; [exact Hevs |]. rewrite <- Hs. exact Hevs'.
    + intros w' Hw'. specialize (Hblind w' Hw').
      destruct (Hc w') as (Hs2 & _ & _).
      destruct (c w') as [[a' | e'] w1'] eqn:Ecw'; cbn [fst snd] in *;
        [| discriminate].
      injection Hblind as ->. apply Hblind'. congruence.
  - split; [exact Hs |]. split.
    + exists evs. auto.
    + intros w' Hw'. specialize (Hblind w' Hw').
      destruct (c w') as [[a' | e'] w1']; cbn [fst snd] in *;
        [discriminate | congruence].
Qed.

Lemma tame_mapM {A B} (c : A -> M B) (l : list A) :
  Forall (fun x => tame P (c x)) l -> tame P (mapM c l).
Proof.
  induction 1 as [| x t Hx Ht IH]; cbn [mapM].
  - apply tame_ret.
  - apply tame_bind; [exact Hx |]. intros y.
    apply tame_bind; [exact IH |]. intros ys. apply tame_ret.
Qed.

(** A method that reads the object and goes on is tame when what it goes
    on with is tame for every object. *)
Lemma tame_get_self {A} (k : Model -> M A) :
  (forall w, tame (fun m' e => m' = self w -> P m' e) (k (self w))) ->
  tame P (bind get_self k).
Proof.
  intros Hk w. unfold bind, get_self.
  destruct (Hk w w) as (Hs & (evs & Hcalls & Hevs) & Hblind).
  split; [exact Hs |]. split.
  - exists evs. split; [exact Hcalls |].
    eapply Forall_impl; [| exact Hevs]. cbn. auto.
  - intros w' Hw'. rewrite Hw'. apply Hblind. exact Hw'.
Qed.
End Tame.

Lemma tame_weaken {A} (P Q : Model -> event -> Prop) (c : M A) :
  (forall m e, P m e -> Q m e) -> tame P c -> tame Q c.
Proof.
  intros HPQ Hc w. destruct (Hc w) as (Hs & (evs & Hcalls & Hevs) & Hblind).
  repeat split; auto. exists evs. split; [exact Hcalls |].
  eapply Forall_impl; [| exact Hevs]. auto.
Qed.

Lemma tame_log (P : Model -> event -> Prop) (e : event) :
  (forall m, P m e) -> tame P (log e).
Proof.
  intros He w. cbn. repeat split; auto.
  exists [e]. split; [reflexivity |]. constructor; auto.
Qed.

Lemma tame_call_er_rot (P : Model -> event -> Prop) x er :
  tame P (call_er_rot x er).
Proof.
  unfold call_er_rot. destruct er as [c |]; [| apply tame_raise].
  apply tame_bind; [apply tame_lift | intros v; apply tame_ret].
Qed.

Lemma tame_call_f v st : tame into_events (call_f v st).
Proof.
  unfold call_f. apply tame_get_self. intros w.
  destruct (f (self w)) as [fn | ls] eqn:Ef.
  - apply tame_bind; [| intros _; apply tame_ret].
    apply tame_log. intros m ->. cbn. eauto.
  - destruct (f_appr (self w)) as [f0 |]; [| apply tame_raise].
    apply tame_bind; [apply tame_log; intros m ->; cbn; eauto |].
    intros _. apply tame_bind; [apply tame_log; intros m ->; cbn; eauto |].
    intros _. apply tame_ret.
Qed.

Lemma tame_into_point x : tame into_events (into_point x).
Proof.
  unfold into_point. apply tame_get_self. intros w.
  eapply tame_weaken with (P := into_events); [auto |].
  apply tame_bind; [apply tame_call_er_rot |]. intros v.
  apply tame_bind; [apply tame_call_f |]. intros q. apply tame_ret.
Qed.

Lemma tame_call_g q : tame from_events (call_g q).
Proof.
  unfold call_g. apply tame_get_self. intros w.
  apply tame_bind; [apply tame_lift |]. intros v.
  apply tame_bind; [apply tame_log; intros m _; exact I |].
  intros _. apply tame_ret.
Qed.

Lemma tame_from_point q : tame from_events (from_point q).
Proof.
  unfold from_point. apply tame_get_self. intros w.
  eapply tame_weaken with (P := from_events); [auto |].
  apply tame_bind; [apply tame_call_g |]. intros x.
  apply tame_bind; [apply tame_call_er_rot |]. intros v. apply tame_ret.
Qed.

Lemma tame_call_h q : tame field_events (call_h q).
Proof.
  unfold call_h. apply tame_get_self. intros w.
  apply tame_bind; [apply tame_lift |]. intros v.
  apply tame_bind; [apply tame_log; intros m _; exact I |].
  intros _. apply tame_ret.
Qed.

Lemma tame_call_collision coll q : tame field_events (call_collision coll q).
Proof.
  unfold call_collision. apply tame_get_self. intros w.
  apply tame_bind; [apply tame_lift |]. intros v.
  apply tame_bind; [apply tame_log; intros m _; exact I |].
  intros _. apply tame_ret.
Qed.

Section Dispatch.
Variable P : Model -> event -> Prop.
Variable single : ndarray -> M ndarray.
Hypothesis tame_single : forall x, tame P (single x).

Lemma tame_transform_array (a : ndarray) : tame P (transform_array single a).
Proof.
  induction a as [r | items IH] using ndarray_nested_ind.
  - apply tame_single.
  - cbn [transform_array].
    destruct (1 <? ndim (NdArr items))%nat; [| apply tame_single].
    apply tame_bind; [| intros rs; apply tame_ret].
    apply tame_mapM. exact IH.
Qed.

Lemma tame_transform (x : pyval) : tame P (transform single x).
Proof.
  induction x as [a | items IH] using pyval_nested_ind.
  - apply tame_transform_array.
  - cbn [transform].
    apply tame_bind; [| intros rs; apply tame_ret].
    apply tame_mapM. exact IH.
Qed.
End Dispatch.

Lemma tame_transform_into x : tame into_events (transform_into x).
Proof. apply tame_transform, tame_into_point. Qed.

Lemma tame_transform_from x : tame from_events (transform_from x).
Proof. apply tame_transform, tame_from_point. Qed.

Lemma tame_magnetic_field v collision :
  tame field_events (magnetic_field v collision).
Proof.
  unfold magnetic_field.
  apply tame_bind.
  { eapply tame_weaken; [| apply tame_transform_into].
    intros m [] He; cbn in *; auto. }
  intros q. apply tame_get_self. intros w.
  eapply tame_weaken with (P := field_events); [auto |].
  assert (Hfield : tame field_events
            (hq <- call_h q ;;
             b <- call_er_rot (of_vec3 hq) (er_coeff_from (self w)) ;;
             ret (of_vec3 b, true))).
  { apply tame_bind; [apply tame_call_h |]. intros hq.
    apply tame_bind; [apply tame_call_er_rot |]. intros b. apply tame_ret. }
  destruct collision as [coll |]; [| exact Hfield].
  apply tame_bind; [apply tame_call_collision |].
  intros [|]; [exact Hfield | apply tame_ret].
Qed.

(* ================================================================== *)
(** ** C2: composition order of [er_compose]                            *)
(* ================================================================== *)

(** C2, as stated, fails: for the unit coefficients [half_turn_x] and
    [third_turn], rotating the x axis by [er_compose a b] gives (0,1,0) while
    rotating it by [b] and then by [a] gives (0,-1,0). *)
Lemma C2_apply_b_then_a_counterexample :
  is_unit half_turn_x /\ is_unit third_turn /\
  er_rot ux (er_compose half_turn_x third_turn) = (0, 1, 0) /\
  er_rot (er_rot ux third_turn) half_turn_x = (0, -1, 0) /\
  er_rot ux (er_compose half_turn_x third_turn)
  <> er_rot (er_rot ux third_turn) half_turn_x.
Proof.
  assert (H1 : er_rot ux (er_compose half_turn_x third_turn) = (0, 1, 0)).
  { unfold er_rot, er_compose, ux, half_turn_x, third_turn.
    repeat match goal with |- (_, _) = (_, _) => f_equal end; field. }
  assert (H2 : er_rot (er_rot ux third_turn) half_turn_x = (0, -1, 0)).
  { unfold er_rot, ux, half_turn_x, third_turn.
    repeat match goal with |- (_, _) = (_, _) => f_equal end; field. }
  repeat split.
  - unfold is_unit, norm2, half_turn_x. ring.
  - unfold is_unit, norm2, third_turn. field.
  - exact H1.
  - exact H2.
  - rewrite H1, H2. intros H. injection H as H. lra.
Qed.

(** C2 (amended): for all coefficients [a], [b] (unit or not) and every
    vector [v], rotating [v] by [er_compose a b] equals rotating [v] by [a]
    first and by [b] second; [er_compose a b] is the Hamilton product taken
    with its operands swapped, [b * a]. *)
Theorem C2_compose_applies_a_then_b (a b : coeffs) (v : vec3) :
  er_rot v (er_compose a b) = er_rot (er_rot v a) b /\
  er_compose a b = hamilton b a.
Proof.
  split; [apply er_rot_compose | apply er_compose_hamilton].
Qed.

(* ================================================================== *)
(** ** C4: the inverse coefficients are the conjugate                   *)
(* ================================================================== *)

(** C4: after [update_er_coefficients], whatever the longitude, latitude and
    inclination, both coefficient vectors are set, the inverse one is the
    conjugate of the forward one, and composing the two (in either order)
    gives the identity coefficients (1,0,0,0). *)
Theorem C4_inverse_is_conjugate (w : World) :
  exists from into : coeffs,
    er_coeff_from (self (snd (update_er_coefficients w))) = Some from /\
    er_coeff_into (self (snd (update_er_coefficients w))) = Some into /\
    into = conjugate from /\
    er_compose from into = er_identity /\
    er_compose into from = er_identity.
Proof.
  destruct (update_er_coefficients_spec w) as (c & Hc & ->).
  exists c, (conjugate c). cbn [snd self er_coeff_from er_coeff_into].
  unfold is_unit in Hc.
  rewrite er_compose_conjugate_r, er_compose_conjugate_l, Hc.
  repeat split.
Qed.

(* ================================================================== *)
(** ** C5: when construction fails                                      *)
(* ================================================================== *)

Lemma init_some_f ls time lo la ic g0 j0 h0 fn f0 :
  exists c, is_unit c /\
    init ls time lo la ic g0 j0 h0 (Some fn) f0
    = Ok (mkModel time time lo la ic g0 j0 h0 (Analytic fn) None []
                  (Some c) (Some (conjugate c))).
Proof.
  unfold init.
  destruct (update_er_coefficients_spec
              (mkWorld (mkModel time time lo la ic g0 j0 h0 (Analytic fn)
                                None [] None None) []))
    as (c & Hc & E).
  exists c. split; [exact Hc |].
  destruct f0; rewrite E; reflexivity.
Qed.

Lemma init_only_f0 ls time lo la ic g0 j0 h0 f0 :
  exists c, is_unit c /\
    init ls time lo la ic g0 j0 h0 None (Some f0)
    = Ok (mkModel time time lo la ic g0 j0 h0 (LeastSquares ls) (Some f0) []
                  (Some c) (Some (conjugate c))).
Proof.
  unfold init.
  destruct (update_er_coefficients_spec
              (mkWorld (mkModel time time lo la ic g0 j0 h0 (LeastSquares ls)
                                (Some f0) [] None None) []))
    as (c & Hc & E).
  exists c. split; [exact Hc |]. rewrite E. reflexivity.
Qed.

(** C5, as stated, fails in its last part ("exactly one of f/f0 must be
    supplied; construction fails otherwise"): with both supplied, not exactly
    one is, and construction succeeds. *)
Lemma C5_both_supplied_counterexample :
  exactly_one (Some identity_fn) (Some identity_fn) = false /\
  succeeds (init (fun _ x0 => x0) 0 0 0 0 identity_fn unit_jacobian identity_fn
                 (Some identity_fn) (Some identity_fn)) = true.
Proof.
  split; [reflexivity |].
  destruct (init_some_f (fun _ x0 => x0) 0 0 0 0 identity_fn unit_jacobian
                        identity_fn identity_fn (Some identity_fn))
    as (c & _ & ->).
  reflexivity.
Qed.

(** C5 (amended): construction fails exactly when both [f] and [f0] are
    absent, and then with the configuration error; with at least one of them
    supplied (one or both) it succeeds. *)
Theorem C5_fails_iff_both_absent
    (ls : solver) (time : datetime) (lo la ic : R)
    (g0 : transform_fn) (j0 : jacobian_fn) (h0 : transform_fn)
    (fo f0o : option transform_fn) :
  succeeds (init ls time lo la ic g0 j0 h0 fo f0o)
  = negb (absent fo && absent f0o) /\
  init ls time lo la ic g0 j0 h0 None None = Raise config_error.
Proof.
  split; [| reflexivity].
  destruct fo as [fn |].
  - destruct (init_some_f ls time lo la ic g0 j0 h0 fn f0o) as (c & _ & ->).
    reflexivity.
  - destruct f0o as [f0 |]; [| reflexivity].
    destruct (init_only_f0 ls time lo la ic g0 j0 h0 f0) as (c & _ & ->).
    reflexivity.
Qed.

(* ================================================================== *)
(** ** The single-point branches                                        *)
(* ================================================================== *)

Lemma as_vec3_of_vec3 (v : vec3) : as_vec3 (of_vec3 v) = Ok v.
Proof. destruct v as [[v0 v1] v2]. reflexivity. Qed.

Lemma ndim_of_vec3 (v : vec3) : ndim (of_vec3 v) = 1%nat.
Proof. destruct v as [[v0 v1] v2]. reflexivity. Qed.

Lemma transform_point (single : ndarray -> M ndarray) (v : vec3) :
  transform single (point v) = single (of_vec3 v).
Proof. destruct v as [[v0 v1] v2]. reflexivity. Qed.

Lemma call_f_result (v : vec3) (st : State) (w : World) :
  fst (call_f v st w) = apply_f (self w) v st.
Proof.
  unfold call_f, apply_f, bind, get_self. cbn.
  destruct (f (self w)) as [fn | ls]; [reflexivity |].
  destruct (f_appr (self w)); reflexivity.
Qed.

Lemma into_point_result (v : vec3) (ci : coeffs) (w : World) :
  er_coeff_into (self w) = Some ci ->
  fst (into_point (of_vec3 v) w)
  = fmap of_vec3 (apply_f (self w) (er_rot v ci) (state (self w))).
Proof.
  intros Hci.
  unfold into_point, call_f, apply_f, bind, get_self, call_er_rot. cbn.
  rewrite Hci, as_vec3_of_vec3. cbn.
  destruct (f (self w)) as [fn | ls]; [reflexivity |].
  destruct (f_appr (self w)); reflexivity.
Qed.

Lemma from_point_result (q : vec3) (cf : coeffs) (w : World) :
  er_coeff_from (self w) = Some cf ->
  fst (from_point (of_vec3 q) w)
  = Ok (of_vec3 (er_rot (g (self w) q (state (self w))) cf)).
Proof.
  intros Hcf. unfold from_point, call_g, bind, get_self, call_er_rot. cbn.
  rewrite as_vec3_of_vec3. cbn. rewrite Hcf, as_vec3_of_vec3. reflexivity.
Qed.

Lemma tame_self {A} (P : Model -> event -> Prop) (c : M A) (w : World) :
  tame P c -> self (snd (c w)) = self w.
Proof. intros Hc. apply (Hc w). Qed.

Lemma tame_blind {A} (P : Model -> event -> Prop) (c : M A) (w w' : World) :
  tame P c -> self w' = self w -> fst (c w') = fst (c w).
Proof. intros Hc. apply (Hc w). Qed.

(* ================================================================== *)
(** ** C6: the round trip through an analytic pair                      *)
(* ================================================================== *)

(** C6: for every orientation and state (any object [w], its coefficients
    derived by [update_er_coefficients] as the constructor does), if the
    stored [f] is analytic and [f] and [g] are inverses of each other at the
    current state, then [transform_from(transform_into(x))] returns [x], for
    every inertial point [x]. *)
Theorem C6_round_trip (w : World) (fi : transform_fn) (x : vec3) :
  f (self w) = Analytic fi ->
  (forall q, fi (g (self w) q (state (self w))) (state (self w)) = q) ->
  (forall p, g (self w) (fi p (state (self w))) (state (self w)) = p) ->
  fst ((update_er_coefficients ;;; round_trip (point x)) w) = Ok (of_vec3 x).
Proof.
  intros Hf _ Hgf.
  destruct (update_er_coefficients_spec w) as (c & Hc & E).
  unfold bind at 1. rewrite E.
  set (w1 := mkWorld _ (calls w)).
  assert (Hinto : fst (transform_into (point x) w1)
                  = Ok (of_vec3 (fi (er_rot x (conjugate c)) (state (self w))))).
  { unfold transform_into. rewrite transform_point.
    rewrite (into_point_result x (conjugate c)) by reflexivity.
    unfold apply_f, w1. cbn [self f state]. rewrite Hf. reflexivity. }
  unfold round_trip, bind.
  pose proof (tame_self _ _ w1 (tame_transform_into (point x))) as Hself.
  destruct (transform_into (point x) w1) as [r w2]. cbn [fst snd] in *.
  rewrite Hinto.
  change (PyArr (of_vec3 ?v)) with (point v).
  unfold transform_from. rewrite transform_point.
  rewrite (from_point_result _ c) by (rewrite Hself; reflexivity).
  rewrite Hself. unfold w1. cbn [self g state]. rewrite Hgf.
  rewrite er_rot_conjugate_unit by exact Hc. reflexivity.
Qed.

(** C6 at the identity chart, longitude 10, latitude 20, inclination 30,
    state (5) and the point (1,2,3). *)
Lemma C6_round_trip_witness :
  fst ((update_er_coefficients ;;; round_trip (point (1, 2, 3)))
         (mkWorld (mkModel 0 0 10 20 30 identity_fn unit_jacobian identity_fn
                           (Analytic identity_fn) None [5] None None) []))
  = Ok (of_vec3 (1, 2, 3)).
Proof.
  apply (C6_round_trip
           (mkWorld (mkModel 0 0 10 20 30 identity_fn unit_jacobian identity_fn
                             (Analytic identity_fn) None [5] None None) [])
           identity_fn (1, 2, 3)).
  - reflexivity.
  - intros q. reflexivity.
  - intros p. reflexivity.
Defined.

(* ================================================================== *)
(** ** C8: the transforms and the field sampling change nothing         *)
(* ================================================================== *)

Lemma unchanged_eq (m m' : Model) : m' = m -> unchanged m m'.
Proof. intros ->. repeat split. Qed.

(** C8: a call of [transform_into], [transform_from] or [magnetic_field], on
    any input and whether it returns or raises, leaves the object as it was:
    the rotation coefficients, the state tuple and the three angles (and every
    other attribute) have their values from before the call. *)
Theorem C8_calls_leave_model_unchanged
    (w : World) (x : pyval) (collision : option collision_fn) :
  let after_into := self (snd (transform_into x w)) in
  let after_from := self (snd (transform_from x w)) in
  let after_field := self (snd (magnetic_field x collision w)) in
  (after_into = self w /\ unchanged (self w) after_into) /\
  (after_from = self w /\ unchanged (self w) after_from) /\
  (after_field = self w /\ unchanged (self w) after_field).
Proof.
  cbv zeta.
  pose proof (tame_self _ _ w (tame_transform_into x)) as H1.
  pose proof (tame_self _ _ w (tame_transform_from x)) as H2.
  pose proof (tame_self _ _ w (tame_magnetic_field x collision)) as H3.
  repeat split; try assumption; rewrite ?H1, ?H2, ?H3; reflexivity.
Qed.

(* ================================================================== *)
(** ** C7: a batch is transformed element by element                    *)
(* ================================================================== *)

Lemma mapM_collect {A B} (P : Model -> event -> Prop) (c : A -> M B)
    (l : list A) (w : World) :
  (forall x, tame P (c x)) ->
  fst (mapM c l w) = collect (map (fun x => fst (c x w)) l).
Proof.
  intros Hc. revert w. induction l as [| x t IH]; intros w; [reflexivity |].
  cbn [mapM map collect]. unfold bind at 1.
  pose proof (tame_self _ _ w (Hc x)) as Hself.
  destruct (c x w) as [[y | e] w1]; cbn [fst snd] in *; [| reflexivity].
  unfold bind at 1.
  assert (Ht : fst (mapM c t w1) = fst (mapM c t w)).
  { apply (tame_blind P); [| exact Hself].
    apply tame_mapM. apply Forall_forall. intros; apply Hc. }
  rewrite <- (IH w), <- Ht.
  destruct (mapM c t w1) as [[ys | e] w2]; reflexivity.
Qed.

Lemma transform_batch (P : Model -> event -> Prop)
    (single : ndarray -> M ndarray) (x : pyval) (w : World) :
  (forall a, tame P (single a)) ->
  is_batch x = true ->
  fst (transform single x w)
  = fmap NdArr (collect (map (fun e => fst (transform single e w)) (elements x))).
Proof.
  intros Hs Hb.
  assert (Hfmap : forall (c : M (list ndarray)),
             fst ((rs <- c ;; ret (NdArr rs)) w) = fmap NdArr (fst (c w))).
  { intros c. unfold bind. destruct (c w) as [[rs | e] w1]; reflexivity. }
  destruct x as [[r | items] | items]; cbn [is_batch] in Hb.
  - discriminate.
  - cbn [transform transform_array elements]. rewrite Hb, Hfmap.
    rewrite (mapM_collect P) by (intros a; apply tame_transform_array, Hs).
    rewrite map_map. reflexivity.
  - cbn [transform elements]. rewrite Hfmap.
    rewrite (mapM_collect P) by (intros a; apply tame_transform, Hs).
    reflexivity.
Qed.

Lemma collect_Forall2 {A B} (c : A -> Result B) (l : list A) (ys : list B) :
  collect (map c l) = Ok ys -> Forall2 (fun x y => c x = Ok y) l ys.
Proof.
  revert ys. induction l as [| x t IH]; intros ys H; cbn in H.
  - injection H as <-. constructor.
  - destruct (c x) as [y | e] eqn:E; [| discriminate].
    destruct (collect (map c t)) as [l' | e]; [| discriminate].
    injection H as <-. constructor; [exact E | apply IH; reflexivity].
Qed.

Lemma batch_elementwise (P : Model -> event -> Prop)
    (single : ndarray -> M ndarray) (w : World) (x : pyval) :
  (forall a, tame P (single a)) ->
  is_batch x = true -> elementwise (transform single) x w.
Proof.
  intros Hs Hb. pose proof (transform_batch P single x w Hs Hb) as E.
  split; [exact E |].
  intros r Hr. rewrite E in Hr.
  destruct (collect (map (fun e => fst (transform single e w)) (elements x)))
    as [rs | e] eqn:Ec; [| discriminate].
  injection Hr as <-. exists rs. split; [reflexivity |].
  apply collect_Forall2 in Ec. exact Ec.
Qed.

(** C7: on a batch (a Python list, or a numpy array of more than one
    dimension) [transform_into] and [transform_from] return the array of the
    results of transforming each element, in order, each computed as if the
    element were transformed alone from the same object, and of the same
    length as the batch.  For a list of points, or a 2-D array of points, the
    results are those of the single-point branch. *)
Theorem C7_batch_is_elementwise (w : World) (x : pyval) :
  is_batch x = true ->
  elementwise transform_into x w /\
  elementwise transform_from x w /\
  (forall ps : list vec3,
      elements x = map point ps ->
      fst (transform_into x w)
      = fmap NdArr (collect (map (fun p => fst (into_point (of_vec3 p) w)) ps))
      /\
      fst (transform_from x w)
      = fmap NdArr (collect (map (fun p => fst (from_point (of_vec3 p) w)) ps))).
Proof.
  intros Hb.
  pose proof (batch_elementwise _ into_point w x tame_into_point Hb) as Hi.
  pose proof (batch_elementwise _ from_point w x tame_from_point Hb) as Hf.
  split; [exact Hi |]. split; [exact Hf |].
  intros ps Hps. destruct Hi as [Hi _], Hf as [Hf _].
  unfold transform_into, transform_from.
  rewrite Hi, Hf, Hps, !map_map.
  split; do 2 f_equal; apply map_ext; intros p; rewrite transform_point;
    reflexivity.
Qed.

(** C7 on a Python list of five points. *)
Lemma C7_batch_is_elementwise_witness :
  is_batch (PyList (map point five_points)) = true /\
  fst (transform_into (PyList (map point five_points)) sample_world)
  = fmap NdArr
      (collect (map (fun p => fst (into_point (of_vec3 p) sample_world))
                    five_points)) /\
  fst (transform_from (PyList (map point five_points)) sample_world)
  = fmap NdArr
      (collect (map (fun p => fst (from_point (of_vec3 p) sample_world))
                    five_points)).
Proof.
  split; [reflexivity |].
  apply (C7_batch_is_elementwise sample_world (PyList (map point five_points))
                                 eq_refl).
  reflexivity.
Defined.

(* ================================================================== *)
(** ** C3: magnetic field sampling                                      *)
(* ================================================================== *)

Lemma call_collision_point (coll : collision_fn) (q : vec3) (w : World) :
  call_collision coll (of_vec3 q) w
  = (Ok (coll q (state (self w))),
     mkWorld (self w) (calls w ++ [CallCollision q (state (self w))])).
Proof.
  unfold call_collision, bind, get_self. cbn.
  rewrite as_vec3_of_vec3. reflexivity.
Qed.

Lemma field_at_point (q : vec3) (cf : coeffs) (w : World) :
  (hq <- call_h (of_vec3 q) ;;
   b <- call_er_rot (of_vec3 hq) (Some cf) ;;
   ret (of_vec3 b, true)) w
  = (Ok (of_vec3 (er_rot (h (self w) q (state (self w))) cf), true),
     mkWorld (self w) (calls w ++ [CallH q (state (self w))])).
Proof.
  unfold call_h, call_er_rot, bind, get_self. cbn.
  rewrite as_vec3_of_vec3. cbn. rewrite as_vec3_of_vec3. reflexivity.
Qed.

Lemma into_events_no_call_h (m : Model) (evs : list event) :
  Forall (into_events m) evs -> filter is_call_h evs = [].
Proof.
  induction 1 as [| e t He _ IH]; [reflexivity |].
  cbn [filter]. rewrite IH. destruct e; cbn in *; tauto.
Qed.

(** C3: let [q] be the curvilinear coordinates [transform_into] returns for
    the query point [p], and [cf] the forward coefficients.  With a collision
    predicate, [magnetic_field] returns [(er_rot (h q state) cf, true)] when
    the predicate holds at [(q, state)], and [(zero vector, false)] when it
    does not; in the latter case no call of [h] is made, in the former
    exactly one, at [(q, state)].  With no predicate it returns
    [(er_rot (h q state) cf, true)]. *)
Theorem C3_magnetic_field (w : World) (p q : vec3) (cf : coeffs) :
  fst (transform_into (point p) w) = Ok (of_vec3 q) ->
  er_coeff_from (self w) = Some cf ->
  let st := state (self w) in
  let field := of_vec3 (er_rot (h (self w) q st) cf) in
  (forall coll : collision_fn,
      fst (magnetic_field (point p) (Some coll) w)
      = if coll q st then Ok (field, true) else Ok (of_vec3 (0, 0, 0), false))
  /\
  (forall coll : collision_fn,
      filter is_call_h (calls (snd (magnetic_field (point p) (Some coll) w)))
      = if coll q st
        then filter is_call_h (calls w) ++ [CallH q st]
        else filter is_call_h (calls w))
  /\
  fst (magnetic_field (point p) None w) = Ok (field, true).
Proof.
  intros Hq Hcf. cbv zeta.
  pose proof (tame_self _ _ w (tame_transform_into (point p))) as Hself.
  destruct (tame_transform_into (point p) w) as (_ & (evs & Hcalls & Hevs) & _).
  apply into_events_no_call_h in Hevs.
  destruct (transform_into (point p) w) as [r w1] eqn:E.
  cbn [fst snd] in *. subst r.
  assert (Hh : filter is_call_h (calls w1) = filter is_call_h (calls w))
    by (rewrite Hcalls, filter_app, Hevs, app_nil_r; reflexivity).
  unfold magnetic_field.
  repeat split; intros; unfold bind at 1; rewrite E;
    unfold bind at 1, get_self; cbn [fst snd].
  - unfold bind at 1. rewrite call_collision_point, Hself.
    destruct (coll q (state (self w))); [| reflexivity].
    rewrite Hcf, field_at_point. reflexivity.
  - unfold bind at 1. rewrite call_collision_point, Hself.
    destruct (coll q (state (self w))).
    + rewrite Hcf, field_at_point. cbn [self snd calls].
      rewrite !filter_app, Hh. cbn. rewrite app_nil_r. reflexivity.
    + cbn [snd calls ret]. rewrite filter_app, Hh. cbn. apply app_nil_r.
  - rewrite Hself, Hcf, field_at_point. cbn [fst]. rewrite Hself. reflexivity.
Qed.

(** C3 at the identity orientation and chart, the point (1,2,3). *)
Lemma C3_magnetic_field_witness :
  fst (magnetic_field (point (1, 2, 3)) (Some (fun _ _ => false)) sample_world)
  = Ok (of_vec3 (0, 0, 0), false) /\
  filter is_call_h
    (calls (snd (magnetic_field (point (1, 2, 3)) (Some (fun _ _ => false))
                                sample_world))) = [] /\
  fst (magnetic_field (point (1, 2, 3)) (Some (fun _ _ => true)) sample_world)
  = fst (magnetic_field (point (1, 2, 3)) None sample_world).
Proof.
  pose proof (C3_magnetic_field sample_world (1, 2, 3)
                (er_rot (1, 2, 3) er_identity) er_identity eq_refl eq_refl)
    as (Hcoll & Hcalls & Hnone).
  split; [exact (Hcoll (fun _ _ => false)) |].
  split; [exact (Hcalls (fun _ _ => false)) |].
  rewrite Hnone. exact (Hcoll (fun _ _ => true)).
Defined.

(* ================================================================== *)
(** ** C9: both [f] and [f0] supplied                                   *)
(* ================================================================== *)

Lemma analytic_no_call_f0 (m : Model) (fn : transform_fn) (evs : list event) :
  f m = Analytic fn -> Forall (field_events m) evs ->
  filter is_call_f0 evs = [].
Proof.
  intros Hf. induction 1 as [| e t He _ IH]; [reflexivity |].
  cbn [filter]. rewrite IH.
  destruct e; cbn in *; try reflexivity.
  destruct He as [ls Hls]. congruence.
Qed.

Lemma into_events_field_events (m : Model) (e : event) :
  into_events m e -> field_events m e.
Proof. destruct e; cbn; auto. Qed.

(** C9: with both [f] and [f0] supplied, construction succeeds and builds the
    very object it builds when [f0] is left out: [f] is stored, [f_appr]
    stays [None], [transform_into] of a point returns [f] of the rotated
    point, and no call of [transform_into] or [magnetic_field] calls [f0]. *)
Theorem C9_both_supplied_uses_f
    (ls : solver) (time : datetime) (lo la ic : R)
    (g0 : transform_fn) (j0 : jacobian_fn) (h0 : transform_fn)
    (fn f0 : transform_fn) :
  exists (m : Model) (ci : coeffs),
    init ls time lo la ic g0 j0 h0 (Some fn) (Some f0) = Ok m /\
    init ls time lo la ic g0 j0 h0 (Some fn) None = Ok m /\
    f m = Analytic fn /\
    f_appr m = None /\
    er_coeff_into m = Some ci /\
    (forall cs p,
        fst (transform_into (point p) (mkWorld m cs))
        = Ok (of_vec3 (fn (er_rot p ci) (state m)))) /\
    (forall cs x,
        filter is_call_f0 (calls (snd (transform_into x (mkWorld m cs))))
        = filter is_call_f0 cs) /\
    (forall cs x coll,
        filter is_call_f0 (calls (snd (magnetic_field x coll (mkWorld m cs))))
        = filter is_call_f0 cs).
Proof.
  assert (Hsame : init ls time lo la ic g0 j0 h0 (Some fn) (Some f0)
                  = init ls time lo la ic g0 j0 h0 (Some fn) None)
    by reflexivity.
  destruct (init_some_f ls time lo la ic g0 j0 h0 fn (Some f0)) as (c & _ & E).
  set (m := mkModel time time lo la ic g0 j0 h0 (Analytic fn) None []
                    (Some c) (Some (conjugate c))) in *.
  exists m, (conjugate c).
  split; [exact E |]. split; [rewrite <- Hsame; exact E |].
  split; [reflexivity |]. split; [reflexivity |]. split; [reflexivity |].
  split; [| split].
  - intros cs p. unfold transform_into. rewrite transform_point.
    rewrite (into_point_result p (conjugate c)) by reflexivity. reflexivity.
  - intros cs x.
    destruct (tame_transform_into x (mkWorld m cs))
      as (_ & (evs & -> & Hevs) & _).
    rewrite filter_app. cbn [self calls] in *.
    rewrite (analytic_no_call_f0 m fn evs); [apply app_nil_r | reflexivity |].
    eapply Forall_impl; [| exact Hevs]. apply into_events_field_events.
  - intros cs x coll.
    destruct (tame_magnetic_field x coll (mkWorld m cs))
      as (_ & (evs & -> & Hevs) & _).
    rewrite filter_app. cbn [self calls] in *.
    rewrite (analytic_no_call_f0 m fn evs); [apply app_nil_r | reflexivity |].
    exact Hevs.
Qed.

(* ================================================================== *)
(** ** C10: the dispatch looks at the type and the dimensions          *)
(* ================================================================== *)

Lemma mapM_over_rows {A B C} (fn : A -> B) (c : B -> M C) (l : list A)
    (w : World) :
  mapM (fun x => c (fn x)) l w = mapM c (map fn l) w.
Proof.
  revert w. induction l as [| x t IH]; intros w; cbn [mapM map]; [reflexivity |].
  unfold bind. destruct (c (fn x) w) as [[y | e] w1]; [| reflexivity].
  rewrite IH. reflexivity.
Qed.

Lemma scalars_map (items : list ndarray) (l : list R) :
  scalars items = Some l -> items = map NdScalar l.
Proof.
  revert l. induction items as [| a t IH]; intros l H; cbn in H.
  - injection H as <-. reflexivity.
  - destruct a as [r | sub]; [| discriminate].
    destruct (scalars t) as [l' |]; [| discriminate].
    injection H as <-. cbn. f_equal. apply IH. reflexivity.
Qed.

Lemma as_vec3_point (a : ndarray) (v : vec3) :
  as_vec3 a = Ok v -> a = of_vec3 v.
Proof.
  destruct a as [r | items]; cbn; [discriminate |].
  destruct (scalars items) as [l |] eqn:E; [| discriminate].
  apply scalars_map in E. subst items.
  destruct l as [| v0 [| v1 [| v2 [| v3 l]]]]; try discriminate.
  intros H. injection H as <-. reflexivity.
Qed.

Lemma into_point_returns (a : ndarray) (r : ndarray) (w : World) :
  fst (into_point a w) = Ok r -> exists v, a = of_vec3 v.
Proof.
  unfold into_point, call_er_rot, bind, get_self. cbn.
  destruct (er_coeff_into (self w)) as [c |]; cbn; [| discriminate].
  destruct (as_vec3 a) as [v | e] eqn:E; cbn; [| discriminate].
  intros _. exists v. apply as_vec3_point. exact E.
Qed.

Lemma into_point_scalar (r : R) (w : World) :
  fst (into_point (NdScalar r) w) = Raise TypeError.
Proof.
  unfold into_point, call_er_rot, bind, get_self. cbn.
  destruct (er_coeff_into (self w)); reflexivity.
Qed.

Lemma transform_batch_branch (single : ndarray -> M ndarray) (x : pyval)
    (w : World) :
  is_batch x = true ->
  transform single x w = batch_branch (transform single) x w.
Proof.
  intros Hb. unfold batch_branch.
  destruct x as [[r | items] | items]; cbn [is_batch] in Hb.
  - discriminate.
  - cbn [transform transform_array elements]. rewrite Hb.
    unfold bind.
    rewrite <- (mapM_over_rows PyArr (transform single) items w). reflexivity.
  - reflexivity.
Qed.

Lemma transform_single_branch (single : ndarray -> M ndarray) (a : ndarray)
    (w : World) :
  is_batch (PyArr a) = false ->
  transform single (PyArr a) w = single a w.
Proof.
  intros Hb. cbn [is_batch] in Hb. cbn [transform].
  destruct a as [r | items]; [reflexivity |].
  cbn [transform_array]. rewrite Hb. reflexivity.
Qed.

(** C10, as stated, fails in its last part ("only a 1-dimensional numpy
    array takes the single-point path"): a float, or an array of no
    dimension, is neither a list nor an array of more than one dimension, so
    both transforms hand it to their single-point branch (where [er_rot]
    refuses it). *)
Lemma C10_scalar_takes_single_path_counterexample :
  ndim (NdScalar 1) = 0%nat /\
  is_batch (PyArr (NdScalar 1)) = false /\
  transform_into (PyArr (NdScalar 1)) sample_world
  = into_point (NdScalar 1) sample_world /\
  transform_from (PyArr (NdScalar 1)) sample_world
  = from_point (NdScalar 1) sample_world /\
  fst (transform_into (PyArr (NdScalar 1)) sample_world) = Raise TypeError.
Proof. repeat split. Qed.

(** C10 (amended): both transforms follow the test of lines 156-157 and
    172-173, which looks at the type of the input and, for a numpy array, at
    its number of dimensions, never at its shape.  Every Python list passes
    the test and is recursed element by element, and so is every numpy array
    of more than one dimension; every other array or scalar (a 1-D array,
    but also a float or an array of no dimension) takes the single-point
    branch.  So a flat list of three floats is iterated float by float, each
    float taking the single-point branch of [transform_into], where [er_rot]
    refuses it with a type error, while the same three floats as a 1-D array
    are one point; and the single-point branch of [transform_into] returns a
    result only for a 1-D array of three floats. *)
Theorem C10_dispatch_by_type_and_ndim (w : World) :
  (forall x, is_batch x = true ->
             transform_into x w = batch_branch transform_into x w /\
             transform_from x w = batch_branch transform_from x w) /\
  (forall a, is_batch (PyArr a) = false ->
             transform_into (PyArr a) w = into_point a w /\
             transform_from (PyArr a) w = from_point a w) /\
  (forall items, is_batch (PyList items) = true) /\
  (forall a, is_batch (PyArr a) = (1 <? ndim a)%nat) /\
  (forall r, is_batch (PyArr (NdScalar r)) = false) /\
  (forall v,
      is_batch (point v) = false /\
      is_batch (flat_list v) = true /\
      elements (flat_list v)
      = (let '(v0, v1, v2) := v in
         [PyArr (NdScalar v0); PyArr (NdScalar v1); PyArr (NdScalar v2)]) /\
      fst (transform_into (flat_list v) w) = Raise TypeError) /\
  (forall x r, is_batch x = false -> fst (transform_into x w) = Ok r ->
               exists v, x = point v).
Proof.
  split; [| split; [| split; [| split; [| split; [| split]]]]].
  - intros x Hb. split; apply transform_batch_branch; exact Hb.
  - intros a Hb. split; apply transform_single_branch; exact Hb.
  - reflexivity.
  - reflexivity.
  - reflexivity.
  - intros v.
    assert (Hb : is_batch (flat_list v) = true)
      by (destruct v as [[v0 v1] v2]; reflexivity).
    split; [unfold point; cbn [is_batch]; rewrite ndim_of_vec3; reflexivity |].
    split; [exact Hb |].
    split; [destruct v as [[v0 v1] v2]; reflexivity |].
    destruct (batch_elementwise _ into_point w (flat_list v) tame_into_point Hb)
      as (Hi & _).
    fold transform_into in Hi. rewrite Hi. destruct v as [[v0 v1] v2].
    cbn [flat_list elements map].
    change (transform_into (PyArr (NdScalar v0)) w)
      with (into_point (NdScalar v0) w).
    rewrite into_point_scalar. reflexivity.
  - intros [a | items] r Hb Hr; [| discriminate].
    unfold transform_into in Hr.
    rewrite (transform_single_branch into_point a w Hb) in Hr.
    apply into_point_returns in Hr as [v ->].
    exists v. reflexivity.
Qed.

(* ================================================================== *)
(** ** C1: the least-squares fallback                                   *)
(* ================================================================== *)

Lemma vnorm2_zero (v : vec3) : vnorm2 v <= 0 -> v = (0, 0, 0).
Proof.
  destruct v as [[v0 v1] v2]. unfold vnorm2. intros H.
  assert (v0 = 0) by nra. assert (v1 = 0) by nra. assert (v2 = 0) by nra.
  subst. reflexivity.
Qed.

(** C1 on the code: take the identity chart [g(q) = q], only [f0] supplied,
    and a solver that returns global minimisers.  The constructed [f] hands
    the solver [self.g] as the residual, so applied to [g(q)] it returns the
    minimiser of [|g|^2], the origin, for every [q], whereas the fallback of
    the specification returns [q]. *)
Theorem C1_fallback_minimises_g_alone
    (ls : solver) (time : datetime) (lo la ic : R)
    (j0 : jacobian_fn) (h0 f0 : transform_fn) (q : vec3) :
  minimises ls (fun q' => identity_fn q' []) (f0 q []) ->
  minimises ls (fun q' => vsub (identity_fn q' []) q) (f0 q []) ->
  exists m : Model,
    init ls time lo la ic identity_fn j0 h0 None (Some f0) = Ok m /\
    f m = LeastSquares ls /\
    f_appr m = Some f0 /\
    (forall cs,
        fst (call_f (g m q (state m)) (state m) (mkWorld m cs))
        = Ok (0, 0, 0)) /\
    spec_fallback ls identity_fn f0 (g m q (state m)) (state m) = q.
Proof.
  intros Hcode Hspec.
  destruct (init_only_f0 ls time lo la ic identity_fn j0 h0 f0) as (c & _ & E).
  eexists. split; [exact E |].
  split; [reflexivity |]. split; [reflexivity |]. split.
  - intros cs. rewrite call_f_result. unfold apply_f. cbn [self f f_appr g state].
    f_equal. apply vnorm2_zero.
    specialize (Hcode (0, 0, 0)). unfold identity_fn in *.
    unfold vnorm2 at 2 in Hcode. lra.
  - unfold spec_fallback. cbn [g state]. unfold identity_fn in *.
    specialize (Hspec q).
    set (r := ls (fun q' => vsub q' q) (f0 q [])) in *.
    assert (Hz : vsub r q = (0, 0, 0)).
    { apply vnorm2_zero. destruct q as [[q0 q1] q2].
      unfold vsub at 2, vnorm2 at 2 in Hspec. lra. }
    destruct r as [[r0 r1] r2], q as [[q0 q1] q2]. cbn in Hz.
    injection Hz as H0 H1 H2.
    repeat match goal with |- (_, _) = (_, _) => f_equal end; lra.
Qed.

(** C1 at the point (1,0,0), with [f0] the identity guess. *)
Lemma C1_fallback_minimises_g_alone_witness :
  exists m : Model,
    init unit_newton_step 0 0 0 0 identity_fn unit_jacobian identity_fn
         None (Some identity_fn) = Ok m /\
    f m = LeastSquares unit_newton_step /\
    f_appr m = Some identity_fn /\
    (forall cs,
        fst (call_f (g m (1, 0, 0) (state m)) (state m) (mkWorld m cs))
        = Ok (0, 0, 0)) /\
    spec_fallback unit_newton_step identity_fn identity_fn
                  (g m (1, 0, 0) (state m)) (state m) = (1, 0, 0).
Proof.
  apply (C1_fallback_minimises_g_alone unit_newton_step 0 0 0 0 unit_jacobian
           identity_fn identity_fn (1, 0, 0)).
  - intros [[q0 q1] q2]. unfold unit_newton_step, identity_fn, vsub, vnorm2.
    pose proof (Rle_0_sqr q0). pose proof (Rle_0_sqr q1).
    pose proof (Rle_0_sqr q2). unfold Rsqr in *. lra.
  - intros [[q0 q1] q2]. unfold unit_newton_step, identity_fn, vsub, vnorm2.
    pose proof (Rle_0_sqr (q0 - 1)). pose proof (Rle_0_sqr (q1 - 0)).
    pose proof (Rle_0_sqr (q2 - 0)). unfold Rsqr in *. lra.
Defined.

(* ================================================================== *)
(** * Further properties of the rotation kernels                        *)
(* ================================================================== *)

Ltac tuple_eq := repeat match goal with |- (_, _) = (_, _) => f_equal end.

Lemma radians_zero_half : radians (0 / 2) = 0.
Proof. unfold radians. field. Qed.

(** X1: a rotation by zero degrees has the identity coefficients (1,0,0,0),
    whatever the axis handed to [er_get] (unit or not, even the zero vector). *)
Theorem X1_er_get_zero_angle (v : vec3) : er_get 0 v = er_identity.
Proof.
  destruct v as [[v0 v1] v2]. unfold er_get, er_identity.
  rewrite radians_zero_half, cos_0, sin_0. tuple_eq; ring.
Qed.

(** X2: for a unit axis, [er_get] returns coefficients of unit norm, for
    every angle. *)
Theorem X2_er_get_unit (a : R) (v : vec3) :
  vnorm2 v = 1 -> is_unit (er_get a v).
Proof. apply norm2_er_get. Qed.

(** X2 for a quarter turn about the z axis. *)
Lemma X2_er_get_unit_witness : is_unit (er_get 90 uz).
Proof. apply (X2_er_get_unit 90 uz). unfold vnorm2, uz. ring. Defined.

(** X3: negating the angle, or the axis, gives the conjugate coefficients. *)
Theorem X3_er_get_negated (a : R) (v : vec3) :
  er_get (- a) v = conjugate (er_get a v) /\
  er_get a (vscale (-1) v) = conjugate (er_get a v).
Proof.
  destruct v as [[v0 v1] v2]. unfold er_get, conjugate, vscale.
  replace (radians (- a / 2)) with (- radians (a / 2))
    by (unfold radians; field).
  rewrite cos_neg, sin_neg. split; tuple_eq; ring.
Qed.

(** X4: two rotations about the same unit axis compose to the rotation by
    the sum of their angles. *)
Theorem X4_er_compose_same_axis (a b : R) (n : vec3) :
  vnorm2 n = 1 ->
  er_compose (er_get a n) (er_get b n) = er_get (a + b) n.
Proof.
  destruct n as [[n0 n1] n2]. unfold vnorm2, er_get, er_compose. intros Hn.
  replace (radians ((a + b) / 2)) with (radians (a / 2) + radians (b / 2))
    by (unfold radians; field).
  rewrite cos_plus, sin_plus.
  set (ca := cos (radians (a / 2))). set (sa := sin (radians (a / 2))).
  set (cb := cos (radians (b / 2))). set (sb := sin (radians (b / 2))).
  tuple_eq; try ring.
  transitivity (ca * cb - sa * sb * (n0 * n0 + n1 * n1 + n2 * n2));
    [ring | rewrite Hn; ring].
Qed.

(** X4 about the z axis, 30 and 60 degrees. *)
Lemma X4_er_compose_same_axis_witness :
  er_compose (er_get 30 uz) (er_get 60 uz) = er_get (30 + 60) uz.
Proof.
  apply (X4_er_compose_same_axis 30 60 uz). unfold vnorm2, uz. ring.
Defined.

(** X5: [er_compose] is associative, for all coefficients. *)
Theorem X5_er_compose_assoc (a b c : coeffs) :
  er_compose (er_compose a b) c = er_compose a (er_compose b c).
Proof. tuple_ring. Qed.

(** X6: the coefficients (1,0,0,0) are neutral for [er_compose] on both
    sides. *)
Theorem X6_er_compose_identity (a : coeffs) :
  er_compose er_identity a = a /\ er_compose a er_identity = a.
Proof.
  destruct a as [[[a0 a1] a2] a3]. unfold er_compose, er_identity.
  split; tuple_eq; ring.
Qed.

(** X7: the squared norm of a composition is the product of the squared
    norms; composing unit coefficients therefore gives unit coefficients. *)
Theorem X7_er_compose_norm (a b : coeffs) :
  norm2 (er_compose a b) = norm2 a * norm2 b.
Proof. tuple_ring. Qed.

(** X8: the conjugate of a composition is the composition of the conjugates
    in the opposite order. *)
Theorem X8_conjugate_er_compose (a b : coeffs) :
  conjugate (er_compose a b) = er_compose (conjugate b) (conjugate a).
Proof. tuple_ring. Qed.

(** X9: [er_rot] is linear in the vector it rotates. *)
Theorem X9_er_rot_linear (k : R) (u v : vec3) (c : coeffs) :
  er_rot (vadd (vscale k u) v) c = vadd (vscale k (er_rot u c)) (er_rot v c).
Proof.
  destruct u as [[u0 u1] u2], v as [[v0 v1] v2], c as [[[c0 c1] c2] c3].
  unfold er_rot, vadd, vscale. tuple_eq; ring.
Qed.

(** X10: [er_rot] multiplies every scalar product by the square of the
    squared norm of the coefficients: unit coefficients keep lengths and
    angles, coefficients that are not unit scale them. *)
Theorem X10_er_rot_dot (u v : vec3) (c : coeffs) :
  dot (er_rot u c) (er_rot v c) = norm2 c * norm2 c * dot u v.
Proof.
  destruct u as [[u0 u1] u2], v as [[v0 v1] v2], c as [[[c0 c1] c2] c3].
  unfold er_rot, dot, norm2. ring.
Qed.

(** X11: [er_rot] keeps the handedness: the vector product of two rotated
    vectors is the rotated vector product, times the squared norm of the
    coefficients. *)
Theorem X11_er_rot_cross (u v : vec3) (c : coeffs) :
  cross (er_rot u c) (er_rot v c) = vscale (norm2 c) (er_rot (cross u v) c).
Proof.
  destruct u as [[u0 u1] u2], v as [[v0 v1] v2], c as [[[c0 c1] c2] c3].
  unfold er_rot, cross, vscale, norm2. tuple_eq; ring.
Qed.

Lemma er_rot_er_get (a : R) (n v : vec3) :
  vnorm2 n = 1 ->
  er_rot v (er_get a n)
  = vadd (vadd (vscale (cos (radians a)) v)
               (vscale (sin (radians a)) (cross n v)))
         (vscale ((1 - cos (radians a)) * dot n v) n).
Proof.
  destruct n as [[n0 n1] n2], v as [[v0 v1] v2].
  unfold vnorm2, er_get, er_rot, vadd, vscale, cross, dot. intros Hn.
  rewrite <- (cos_radians_half a), <- (sin_radians_half a).
  set (c := cos (radians (a / 2))). set (s := sin (radians (a / 2))).
  assert (Ec : c * c + s * s - 1 = 0)
    by (pose proof (sin2_cos2_mult (radians (a / 2))); fold c s in H; lra).
  assert (En : n0 * n0 + n1 * n1 + n2 * n2 - 1 = 0) by lra.
  tuple_eq.
  - transitivity
      ((c * c - s * s) * v0 + 2 * s * c * (n1 * v2 - n2 * v1)
       + (1 - (c * c - s * s)) * (n0 * v0 + n1 * v1 + n2 * v2) * n0
       - s * s * v0 * (n0 * n0 + n1 * n1 + n2 * n2 - 1)
       + (c * c + s * s - 1) * (n0 * v0 + n1 * v1 + n2 * v2) * n0);
      [ring | rewrite Ec, En; ring].
  - transitivity
      ((c * c - s * s) * v1 + 2 * s * c * (n2 * v0 - n0 * v2)
       + (1 - (c * c - s * s)) * (n0 * v0 + n1 * v1 + n2 * v2) * n1
       - s * s * v1 * (n0 * n0 + n1 * n1 + n2 * n2 - 1)
       + (c * c + s * s - 1) * (n0 * v0 + n1 * v1 + n2 * v2) * n1);
      [ring | rewrite Ec, En; ring].
  - transitivity
      ((c * c - s * s) * v2 + 2 * s * c * (n0 * v1 - n1 * v0)
       + (1 - (c * c - s * s)) * (n0 * v0 + n1 * v1 + n2 * v2) * n2
       - s * s * v2 * (n0 * n0 + n1 * n1 + n2 * n2 - 1)
       + (c * c + s * s - 1) * (n0 * v0 + n1 * v1 + n2 * v2) * n2);
      [ring | rewrite Ec, En; ring].
Qed.

(** X12: for a unit axis [n], [er_rot v (er_get a n)] is the rotation of [v]
    about [n] by [a] degrees, counter-clockwise seen from the tip of [n]
    (Rodrigues' formula):
    [v cos(a) + (n x v) sin(a) + n (n . v) (1 - cos(a))]. *)
Theorem X12_er_rot_rodrigues (a : R) (n v : vec3) :
  vnorm2 n = 1 ->
  er_rot v (er_get a n)
  = vadd (vadd (vscale (cos (radians a)) v)
               (vscale (sin (radians a)) (cross n v)))
         (vscale ((1 - cos (radians a)) * dot n v) n).
Proof. apply er_rot_er_get. Qed.

(** X12 for a turn of 90 degrees about the z axis, applied to the x axis. *)
Lemma X12_er_rot_rodrigues_witness :
  er_rot ux (er_get 90 uz)
  = vadd (vadd (vscale (cos (radians 90)) ux)
               (vscale (sin (radians 90)) (cross uz ux)))
         (vscale ((1 - cos (radians 90)) * dot uz ux) uz).
Proof.
  apply (X12_er_rot_rodrigues 90 uz ux). unfold vnorm2, uz. ring.
Defined.

Lemma er_rot_conjugate_after (v : vec3) (c : coeffs) :
  er_rot (er_rot v c) (conjugate c)
  = vscale (norm2 c * norm2 c) v.
Proof.
  destruct v as [[v0 v1] v2], c as [[[c0 c1] c2] c3].
  unfold er_rot, conjugate, vscale, norm2. tuple_eq; ring.
Qed.

Lemma vscale_one (v : vec3) : vscale 1 v = v.
Proof. destruct v as [[v0 v1] v2]. unfold vscale. tuple_eq; ring. Qed.

(** X13: for unit coefficients the conjugate undoes the rotation, on either
    side. *)
Theorem X13_er_rot_conjugate_inverse (v : vec3) (c : coeffs) :
  is_unit c ->
  er_rot (er_rot v c) (conjugate c) = v /\
  er_rot (er_rot v (conjugate c)) c = v.
Proof.
  intros Hc. split.
  - rewrite er_rot_conjugate_after. unfold is_unit in Hc.
    rewrite Hc, Rmult_1_r. apply vscale_one.
  - apply er_rot_conjugate_unit. exact Hc.
Qed.

(** X13 for the third of a turn about (1,1,1). *)
Lemma X13_er_rot_conjugate_inverse_witness :
  er_rot (er_rot (1, 2, 3) third_turn) (conjugate third_turn) = (1, 2, 3) /\
  er_rot (er_rot (1, 2, 3) (conjugate third_turn)) third_turn = (1, 2, 3).
Proof.
  apply (X13_er_rot_conjugate_inverse (1, 2, 3) third_turn).
  unfold is_unit, norm2, third_turn. field.
Defined.

(** X14: coefficients and their negation rotate every vector alike. *)
Theorem X14_er_rot_negate (v : vec3) (c : coeffs) :
  er_rot v (negate c) = er_rot v c.
Proof.
  destruct v as [[v0 v1] v2], c as [[[c0 c1] c2] c3].
  unfold er_rot, negate. tuple_eq; ring.
Qed.

(* ================================================================== *)
(** * Further properties of the model                                   *)
(* ================================================================== *)

(** What [update_er_coefficients] does to the object, in full. *)
Lemma update_er_coefficients_run (w : World) :
  update_er_coefficients w
  = (Ok Datatypes.tt,
     mkWorld
       (mkModel (t0 (self w)) (tt (self w)) (lon (self w)) (lat (self w))
                (inc (self w)) (g (self w)) (jac (self w)) (h (self w))
                (f (self w)) (f_appr (self w)) (state (self w))
                (Some (forward_coeffs (lon (self w)) (lat (self w))
                                      (inc (self w))))
                (Some (conjugate (forward_coeffs (lon (self w)) (lat (self w))
                                                 (inc (self w))))))
       (calls w)).
Proof.
  unfold update_er_coefficients, forward_coeffs, bind, get_self, put_self.
  cbn [fst snd].
  destruct (er_compose _ _) as [[[e0 e1] e2] e3]. reflexivity.
Qed.

Lemma is_unit_forward_coeffs (lo la ic : R) : is_unit (forward_coeffs lo la ic).
Proof.
  unfold forward_coeffs.
  set (c1 := er_get lo uz).
  set (c2 := er_get (- la) (er_rot uy c1)).
  assert (H1 : is_unit c1) by (apply norm2_er_get, vnorm2_uz).
  assert (H2 : is_unit c2)
    by (apply norm2_er_get, vnorm2_er_rot_unit; [exact H1 | apply vnorm2_uy]).
  assert (H12 : is_unit (er_compose c1 c2))
    by (apply is_unit_er_compose; assumption).
  apply is_unit_er_compose; [exact H12 |].
  apply norm2_er_get, vnorm2_er_rot_unit; [exact H12 | apply vnorm2_ux].
Qed.

(** X15: after [update_er_coefficients] the forward coefficients send the
    x axis of the rope's frame to the direction of the object's longitude
    and latitude, [(cos lon cos lat, sin lon cos lat, sin lat)] (angles in
    degrees), whatever the inclination. *)
Theorem X15_propagation_direction (w : World) :
  exists c : coeffs,
    er_coeff_from (self (snd (update_er_coefficients w))) = Some c /\
    er_rot ux c
    = (cos (radians (lon (self w))) * cos (radians (lat (self w))),
       sin (radians (lon (self w))) * cos (radians (lat (self w))),
       sin (radians (lat (self w)))).
Proof.
  eexists. split; [apply update_er_coefficients_stores |].
  apply propagation_direction.
Qed.

(** The coefficients before the roll send the y axis to the horizontal
    direction at right angles to the longitude. *)
Lemma tilt_keeps_y (lo la : R) :
  er_rot uy (er_compose (er_get lo uz) (er_get (- la) (er_rot uy (er_get lo uz))))
  = (- sin (radians lo), cos (radians lo), 0).
Proof.
  set (c1 := er_get lo uz).
  assert (H1 : is_unit c1) by (apply norm2_er_get, vnorm2_uz).
  rewrite er_rot_compose.
  rewrite er_rot_own_axis
    by (apply vnorm2_er_rot_unit; [exact H1 | apply vnorm2_uy]).
  unfold c1, er_get, er_rot, uy, uz.
  rewrite <- (cos_radians_half lo), <- (sin_radians_half lo).
  tuple_eq; ring.
Qed.

Lemma direction_before_roll (lo la : R) :
  er_rot ux (er_compose (er_get lo uz) (er_get (- la) (er_rot uy (er_get lo uz))))
  = (cos (radians lo) * cos (radians la),
     sin (radians lo) * cos (radians la),
     sin (radians la)).
Proof.
  rewrite <- (propagation_direction lo la 0). unfold forward_coeffs.
  rewrite (er_rot_compose ux _ (er_get 0 _)).
  destruct (er_rot ux _) as [[d0 d1] d2].
  unfold er_get. rewrite radians_zero_half, cos_0, sin_0.
  unfold er_rot. tuple_eq; ring.
Qed.

(** X16: after [update_er_coefficients] the forward coefficients send the
    y axis of the rope's frame to
    [cos inc (-sin lon, cos lon, 0) + sin inc (-sin lat cos lon, -sin lat sin lon, cos lat)]:
    at inclination 0 it lies in the XY plane, at right angles to the
    longitude direction, as the module docstring says. *)
Theorem X16_axis_orientation (w : World) :
  exists c : coeffs,
    er_coeff_from (self (snd (update_er_coefficients w))) = Some c /\
    er_rot uy c
    = vadd (vscale (cos (radians (inc (self w))))
                   (- sin (radians (lon (self w))),
                    cos (radians (lon (self w))), 0))
           (vscale (sin (radians (inc (self w))))
                   (- sin (radians (lat (self w))) * cos (radians (lon (self w))),
                    - sin (radians (lat (self w))) * sin (radians (lon (self w))),
                    cos (radians (lat (self w))))).
Proof.
  eexists. split; [apply update_er_coefficients_stores |].
  set (lo := lon (self w)). set (la := lat (self w)). set (ic := inc (self w)).
  unfold forward_coeffs.
  rewrite er_rot_compose, tilt_keeps_y, direction_before_roll.
  rewrite er_rot_er_get.
  2:{ unfold vnorm2.
      pose proof (sin2_cos2_mult (radians lo)).
      pose proof (sin2_cos2_mult (radians la)).
      transitivity ((cos (radians lo) * cos (radians lo)
                     + sin (radians lo) * sin (radians lo))
                    * (cos (radians la) * cos (radians la))
                    + sin (radians la) * sin (radians la));
        [ring | rewrite H; lra]. }
  unfold vadd, vscale, cross, dot.
  pose proof (sin2_cos2_mult (radians lo)) as Hlo.
  set (cl := cos (radians lo)) in *. set (sl := sin (radians lo)) in *.
  set (cp := cos (radians la)). set (sp := sin (radians la)).
  set (ci := cos (radians ic)). set (si := sin (radians ic)).
  tuple_eq.
  - ring.
  - ring.
  - transitivity (si * cp * (cl * cl + sl * sl)); [ring | rewrite Hlo; ring].
Qed.

(** X17: [update_er_coefficients] never raises, calls no capability, changes
    no attribute but the two coefficient vectors, and running it again
    changes nothing more. *)
Theorem X17_update_er_coefficients_idempotent (w : World) :
  fst (update_er_coefficients w) = Ok Datatypes.tt /\
  snd (update_er_coefficients (snd (update_er_coefficients w)))
  = snd (update_er_coefficients w) /\
  calls (snd (update_er_coefficients w)) = calls w /\
  (let m := self w in
   let m' := self (snd (update_er_coefficients w)) in
   t0 m' = t0 m /\ tt m' = tt m /\
   lon m' = lon m /\ lat m' = lat m /\ inc m' = inc m /\
   g m' = g m /\ jac m' = jac m /\ h m' = h m /\
   f m' = f m /\ f_appr m' = f_appr m /\ state m' = state m).
Proof.
  rewrite (update_er_coefficients_run (snd (update_er_coefficients w))).
  rewrite (update_er_coefficients_run w). cbn.
  repeat split.
Qed.

(** X18: a model that [__init__] returns is ready for queries: both times
    are the given time, the angles and capabilities are stored, the state is
    the empty tuple, the forward coefficients are those of the three angles
    and have unit norm, the inverse ones are their conjugate; [f] is the
    caller's when it was given, and otherwise the least-squares closure with
    [f0] stored as [f_appr]. *)
Theorem X18_init_postcondition
    (ls : solver) (time : datetime) (lo la ic : R)
    (g0 : transform_fn) (j0 : jacobian_fn) (h0 : transform_fn)
    (fo f0o : option transform_fn) (m : Model) :
  init ls time lo la ic g0 j0 h0 fo f0o = Ok m ->
  t0 m = time /\ tt m = time /\
  lon m = lo /\ lat m = la /\ inc m = ic /\
  g m = g0 /\ jac m = j0 /\ h m = h0 /\
  state m = [] /\
  er_coeff_from m = Some (forward_coeffs lo la ic) /\
  er_coeff_into m = Some (conjugate (forward_coeffs lo la ic)) /\
  is_unit (forward_coeffs lo la ic) /\
  match fo with
  | Some fn => f m = Analytic fn /\ f_appr m = None
  | None => f m = LeastSquares ls /\ f_appr m = f0o
  end.
Proof.
  unfold init. intros H.
  pose proof (is_unit_forward_coeffs lo la ic) as Hu.
  destruct fo as [fn |].
  - assert (E : m = mkModel time time lo la ic g0 j0 h0 (Analytic fn) None []
                      (Some (forward_coeffs lo la ic))
                      (Some (conjugate (forward_coeffs lo la ic)))).
    { destruct f0o; rewrite update_er_coefficients_run in H;
        cbn in H; injection H as <-; reflexivity. }
    subst m. cbn. repeat split. exact Hu.
  - destruct f0o as [f0 |]; [| discriminate].
    rewrite update_er_coefficients_run in H. cbn in H. injection H as <-.
    cbn. repeat split. exact Hu.
Qed.

(** X18 for a model built with only the guess [f0]. *)
Lemma X18_init_postcondition_witness :
  exists m : Model,
    init unit_newton_step 7 10 20 30 identity_fn unit_jacobian identity_fn
         None (Some identity_fn) = Ok m /\
    state m = [] /\ tt m = 7 /\
    er_coeff_into m = Some (conjugate (forward_coeffs 10 20 30)) /\
    f_appr m = Some identity_fn.
Proof.
  destruct (init_only_f0 unit_newton_step 7 10 20 30 identity_fn unit_jacobian
                         identity_fn identity_fn) as (c & _ & E).
  eexists. split; [exact E |].
  pose proof (X18_init_postcondition _ _ _ _ _ _ _ _ _ _ _ E) as H.
  cbv beta iota in H.
  destruct H as (_ & Htt & _ & _ & _ & _ & _ & _ & Hst & _ & Hinto & _ & _ & Hf0).
  repeat split; assumption.
Defined.

(** The single-point branches on a point, result and trace. *)
Lemma into_point_analytic (fi : transform_fn) (ci : coeffs) (m : Model)
    (p : vec3) (cs : list event) :
  f m = Analytic fi -> er_coeff_into m = Some ci ->
  into_point (of_vec3 p) (mkWorld m cs)
  = (Ok (of_vec3 (fi (er_rot p ci) (state m))),
     mkWorld m (cs ++ [CallF (er_rot p ci) (state m)])).
Proof.
  intros Hf Hci. unfold into_point, call_f, bind, get_self, call_er_rot. cbn.
  rewrite Hci, as_vec3_of_vec3. cbn. rewrite Hf. reflexivity.
Qed.

Lemma from_point_run (cf : coeffs) (m : Model) (q : vec3) (cs : list event) :
  er_coeff_from m = Some cf ->
  from_point (of_vec3 q) (mkWorld m cs)
  = (Ok (of_vec3 (er_rot (g m q (state m)) cf)),
     mkWorld m (cs ++ [CallG q (state m)])).
Proof.
  intros Hcf. unfold from_point, call_g, bind, get_self, call_er_rot. cbn.
  rewrite as_vec3_of_vec3. cbn. rewrite Hcf, as_vec3_of_vec3. reflexivity.
Qed.

(** X19: the round trip the other way.  For every orientation and state
    (coefficients derived by [update_er_coefficients]), if the stored [f] is
    analytic and undoes [g] at the current state, then
    [transform_into(transform_from(q))] returns [q], for every curvilinear
    point [q]. *)
Theorem X19_round_trip_back (w : World) (fi : transform_fn) (q : vec3) :
  f (self w) = Analytic fi ->
  (forall q', fi (g (self w) q' (state (self w))) (state (self w)) = q') ->
  fst ((update_er_coefficients ;;; round_trip_back (point q)) w)
  = Ok (of_vec3 q).
Proof.
  intros Hf Hfg.
  unfold bind at 1. rewrite update_er_coefficients_run.
  set (c := forward_coeffs (lon (self w)) (lat (self w)) (inc (self w))).
  set (m1 := mkModel _ _ _ _ _ _ _ _ _ _ _ _ _).
  unfold round_trip_back, bind, transform_from, transform_into.
  rewrite transform_point.
  rewrite (from_point_run c) by reflexivity.
  change (PyArr (of_vec3 ?v)) with (point v). rewrite transform_point.
  rewrite (into_point_analytic fi (conjugate c)) by (assumption || reflexivity).
  cbn [fst]. unfold m1. cbn [g state].
  rewrite er_rot_conjugate_after.
  pose proof (is_unit_forward_coeffs (lon (self w)) (lat (self w)) (inc (self w)))
    as Hu.
  unfold is_unit in Hu. fold c in Hu. rewrite Hu, Rmult_1_r, vscale_one, Hfg.
  reflexivity.
Qed.

(** X19 at the identity chart, longitude 10, latitude 20, inclination 30. *)
Lemma X19_round_trip_back_witness :
  fst ((update_er_coefficients ;;; round_trip_back (point (1, 2, 3)))
         (mkWorld (mkModel 0 0 10 20 30 identity_fn unit_jacobian identity_fn
                           (Analytic identity_fn) None [5] None None) []))
  = Ok (of_vec3 (1, 2, 3)).
Proof.
  apply (X19_round_trip_back
           (mkWorld (mkModel 0 0 10 20 30 identity_fn unit_jacobian identity_fn
                             (Analytic identity_fn) None [5] None None) [])
           identity_fn (1, 2, 3)).
  - reflexivity.
  - intros q'. reflexivity.
Defined.

Lemma mapM_logged {A B} (c : A -> M B) (r : A -> B) (e : A -> event)
    (m : Model) (l : list A) :
  (forall x cs, c x (mkWorld m cs) = (Ok (r x), mkWorld m (cs ++ [e x]))) ->
  forall cs, mapM c l (mkWorld m cs) = (Ok (map r l), mkWorld m (cs ++ map e l)).
Proof.
  intros Hc. induction l as [| x t IH]; intros cs; cbn [mapM map].
  - unfold ret. rewrite app_nil_r. reflexivity.
  - unfold bind at 1. rewrite Hc. unfold bind at 1. rewrite IH.
    unfold ret. rewrite <- app_assoc. reflexivity.
Qed.

Lemma mapM_map {A B C} (fn : A -> B) (c : B -> M C) (l : list A) (w : World) :
  mapM c (map fn l) w = mapM (fun x => c (fn x)) l w.
Proof.
  revert w. induction l as [| x t IH]; intros w; cbn [mapM map]; [reflexivity |].
  unfold bind. destruct (c (fn x) w) as [[y | e] w1]; [| reflexivity].
  rewrite IH. reflexivity.
Qed.

(** X20: with an analytic [f] and the coefficients set, [transform_into] of
    a Python list of points cannot fail: it returns the array of
    [f(er_rot(p, inverse coefficients), state)] for the points [p] in order,
    and calls [f] exactly once per point, in that order, and nothing else. *)
Theorem X20_transform_into_points (w : World) (fi : transform_fn)
    (ci : coeffs) (ps : list vec3) :
  f (self w) = Analytic fi ->
  er_coeff_into (self w) = Some ci ->
  transform_into (PyList (map point ps)) w
  = (Ok (NdArr (map (fun p => of_vec3 (fi (er_rot p ci) (state (self w)))) ps)),
     mkWorld (self w)
             (calls w ++ map (fun p => CallF (er_rot p ci) (state (self w))) ps)).
Proof.
  intros Hf Hci. destruct w as [m cs]. cbn [self calls] in *.
  unfold transform_into. cbn [transform]. unfold bind.
  rewrite mapM_map.
  rewrite (mapM_logged _ (fun p => of_vec3 (fi (er_rot p ci) (state m)))
                       (fun p => CallF (er_rot p ci) (state m)) m).
  - reflexivity.
  - intros p cs'. rewrite transform_point.
    apply into_point_analytic; assumption.
Qed.

(** X20 on the five sample points. *)
Lemma X20_transform_into_points_witness :
  transform_into (PyList (map point five_points)) sample_world
  = (Ok (NdArr (map (fun p => of_vec3 (identity_fn (er_rot p er_identity) []))
                    five_points)),
     mkWorld sample_model
             (map (fun p => CallF (er_rot p er_identity) []) five_points)).
Proof.
  apply (X20_transform_into_points sample_world identity_fn er_identity
                                   five_points eq_refl eq_refl).
Defined.

(** X21: with the coefficients set, [transform_from] of a Python list of
    points cannot fail: it returns the array of
    [er_rot(g(q, state), forward coefficients)] for the points [q] in order,
    and calls [g] exactly once per point, in that order, and nothing else. *)
Theorem X21_transform_from_points (w : World) (cf : coeffs) (qs : list vec3) :
  er_coeff_from (self w) = Some cf ->
  transform_from (PyList (map point qs)) w
  = (Ok (NdArr (map (fun q => of_vec3 (er_rot (g (self w) q (state (self w))) cf))
                    qs)),
     mkWorld (self w)
             (calls w ++ map (fun q => CallG q (state (self w))) qs)).
Proof.
  intros Hcf. destruct w as [m cs]. cbn [self calls] in *.
  unfold transform_from. cbn [transform]. unfold bind.
  rewrite mapM_map.
  rewrite (mapM_logged _ (fun q => of_vec3 (er_rot (g m q (state m)) cf))
                       (fun q => CallG q (state m)) m).
  - reflexivity.
  - intros q cs'. rewrite transform_point.
    apply from_point_run; assumption.
Qed.

(** X21 on the five sample points. *)
Lemma X21_transform_from_points_witness :
  transform_from (PyList (map point five_points)) sample_world
  = (Ok (NdArr (map (fun q => of_vec3 (er_rot (identity_fn q []) er_identity))
                    five_points)),
     mkWorld sample_model (map (fun q => CallG q []) five_points)).
Proof.
  apply (X21_transform_from_points sample_world er_identity five_points eq_refl).
Defined.

Lemma vnorm2_er_rot_unit_any (v : vec3) (c : coeffs) :
  is_unit c -> vnorm2 (er_rot v c) = vnorm2 v.
Proof.
  unfold is_unit. intros Hc. rewrite vnorm2_er_rot, Hc. ring.
Qed.

(** X22: the orientation keeps lengths.  After [update_er_coefficients],
    [transform_from] of a point [q] returns a vector of the same length as
    [g(q, state)], for every longitude, latitude and inclination. *)
Theorem X22_transform_from_keeps_length (w : World) (q : vec3) :
  exists x : vec3,
    fst ((update_er_coefficients ;;; transform_from (point q)) w)
    = Ok (of_vec3 x) /\
    vnorm2 x = vnorm2 (g (self w) q (state (self w))).
Proof.
  unfold bind at 1. rewrite update_er_coefficients_run.
  set (c := forward_coeffs (lon (self w)) (lat (self w)) (inc (self w))).
  unfold transform_from. rewrite transform_point.
  rewrite (from_point_run c) by reflexivity. cbn [fst g state].
  eexists. split; [reflexivity |].
  apply vnorm2_er_rot_unit_any. apply is_unit_forward_coeffs.
Qed.

Lemma magnetic_field_unguarded (w : World) (p q : vec3) (cf : coeffs) :
  fst (transform_into (point p) w) = Ok (of_vec3 q) ->
  er_coeff_from (self w) = Some cf ->
  fst (magnetic_field (point p) None w)
  = Ok (of_vec3 (er_rot (h (self w) q (state (self w))) cf), true).
Proof.
  intros Hq Hcf.
  pose proof (tame_self _ _ w (tame_transform_into (point p))) as Hself.
  unfold magnetic_field, bind at 1.
  destruct (transform_into (point p) w) as [r w1]. cbn [fst snd] in *.
  subst r. unfold bind at 1, get_self.
  rewrite Hself, Hcf, field_at_point. cbn [fst]. rewrite Hself. reflexivity.
Qed.

(** X23: the field keeps its strength.  With unit forward coefficients and
    no collision predicate, the vector [magnetic_field] returns at a point
    has the length of [h(q, state)], [q] being the curvilinear coordinates of
    the point. *)
Theorem X23_magnetic_field_keeps_strength (w : World) (p q : vec3)
    (cf : coeffs) :
  fst (transform_into (point p) w) = Ok (of_vec3 q) ->
  er_coeff_from (self w) = Some cf ->
  is_unit cf ->
  exists b : vec3,
    fst (magnetic_field (point p) None w) = Ok (of_vec3 b, true) /\
    vnorm2 b = vnorm2 (h (self w) q (state (self w))).
Proof.
  intros Hq Hcf Hu. eexists. split.
  - apply magnetic_field_unguarded; eassumption.
  - apply vnorm2_er_rot_unit_any. exact Hu.
Qed.

(** X23 at the identity orientation and chart, the point (1,2,3). *)
Lemma X23_magnetic_field_keeps_strength_witness :
  exists b : vec3,
    fst (magnetic_field (point (1, 2, 3)) None sample_world)
    = Ok (of_vec3 b, true) /\
    vnorm2 b
    = vnorm2 (identity_fn (er_rot (1, 2, 3) er_identity) []).
Proof.
  apply (X23_magnetic_field_keeps_strength sample_world (1, 2, 3)
           (er_rot (1, 2, 3) er_identity) er_identity eq_refl eq_refl).
  unfold is_unit, norm2, er_identity. ring.
Defined.

Lemma ndim_scalars (items : list ndarray) (l : list R) :
  scalars items = Some l -> ndim (NdArr items) = 1%nat.
Proof.
  intros H. apply scalars_map in H. subst items.
  destruct l; reflexivity.
Qed.

(** X24: a 1-D array that has not exactly three components (the empty array
    included) is refused by [transform_into] with a value error, raised by
    the matrix product of [er_rot]: [f] is not called and the object and the
    trace are as before. *)
Theorem X24_transform_into_wrong_length (w : World) (ci : coeffs)
    (items : list ndarray) (l : list R) :
  scalars items = Some l ->
  List.length l <> 3%nat ->
  er_coeff_into (self w) = Some ci ->
  exists msg : string,
    transform_into (PyArr (NdArr items)) w = (Raise (ValueError msg), w).
Proof.
  intros Hs Hl Hci. unfold transform_into. cbn [transform transform_array].
  rewrite (ndim_scalars items l Hs). cbn [Nat.ltb Nat.leb].
  unfold into_point, bind, get_self, call_er_rot. rewrite Hci.
  unfold bind, lift, as_vec3. rewrite Hs.
  destruct l as [| v0 [| v1 [| v2 [| v3 t]]]]; cbn in Hl;
    try (exfalso; apply Hl; reflexivity);
    eexists; reflexivity.
Qed.

(** X24 on the two-component array (1, 2). *)
Lemma X24_transform_into_wrong_length_witness :
  exists msg : string,
    transform_into (PyArr (NdArr [NdScalar 1; NdScalar 2])) sample_world
    = (Raise (ValueError msg), sample_world).
Proof.
  apply (X24_transform_into_wrong_length sample_world er_identity
           [NdScalar 1; NdScalar 2] [1; 2] eq_refl).
  - cbn. discriminate.
  - reflexivity.
Defined.

(** X26: on every input, [transform_from] calls no capability but [g], and
    [transform_into] none but the inverse ([f], or [f0] and the solver): the
    trace of either only grows, by such calls. *)
Theorem X26_transforms_capability_calls (w : World) (x : pyval) :
  (exists evs,
      calls (snd (transform_from x w)) = calls w ++ evs /\
      forallb is_call_g evs = true) /\
  (exists evs,
      calls (snd (transform_into x w)) = calls w ++ evs /\
      forallb is_inverse_call evs = true).
Proof.
  split.
  - destruct (tame_transform_from x w) as (_ & (evs & Hc & Hevs) & _).
    exists evs. split; [exact Hc |].
    apply forallb_forall. intros e He.
    rewrite Forall_forall in Hevs. specialize (Hevs e He).
    destruct e; cbn in *; tauto.
  - destruct (tame_transform_into x w) as (_ & (evs & Hc & Hevs) & _).
    exists evs. split; [exact Hc |].
    apply forallb_forall. intros e He.
    rewrite Forall_forall in Hevs. specialize (Hevs e He).
    destruct e; cbn in *; tauto.
Qed.

(** X27: a further full turn changes the sign of the coefficients [er_get]
    returns and nothing of the rotation: [er_get (a + 360) n] is the
    negation of [er_get a n], and rotates every vector as [er_get a n]
    does. *)
Theorem X27_er_get_full_turn (a : R) (n v : vec3) :
  er_get (a + 360) n = negate (er_get a n) /\
  er_rot v (er_get (a + 360) n) = er_rot v (er_get a n).
Proof.
  assert (E : er_get (a + 360) n = negate (er_get a n)).
  { destruct n as [[n0 n1] n2]. unfold er_get, negate.
    replace (radians ((a + 360) / 2)) with (radians (a / 2) + PI)
      by (unfold radians; field).
    rewrite neg_cos, neg_sin. tuple_eq; ring. }
  split; [exact E |]. rewrite E.
  destruct v as [[v0 v1] v2], (er_get a n) as [[[c0 c1] c2] c3].
  unfold er_rot, negate. tuple_eq; ring.
Qed.

Section SameResults.
Variable P : Model -> event -> Prop.
Variable single : ndarray -> M ndarray.
Hypothesis tame_single : forall a, tame P (single a).
Variables w w' : World.
Hypothesis same_single : forall a, fst (single a w') = fst (single a w).

Lemma transform_array_same (a : ndarray) :
  fst (transform single (PyArr a) w') = fst (transform single (PyArr a) w).
Proof.
  induction a as [s | items IH] using ndarray_nested_ind.
  - apply same_single.
  - destruct (1 <? ndim (NdArr items))%nat eqn:Hb.
    + rewrite !(transform_batch P single (PyArr (NdArr items)) _ tame_single Hb).
      cbn [elements]. rewrite !map_map. do 2 f_equal.
      apply map_ext_Forall. exact IH.
    + cbn [transform transform_array]. rewrite Hb. apply same_single.
Qed.

Lemma transform_same (x : pyval) :
  fst (transform single x w') = fst (transform single x w).
Proof.
  induction x as [a | items IH] using pyval_nested_ind.
  - apply transform_array_same.
  - rewrite !(transform_batch P single (PyList items) _ tame_single eq_refl).
    cbn [elements]. do 2 f_equal. apply map_ext_Forall. exact IH.
Qed.
End SameResults.

Lemma into_point_stale (m : Model) (lo la ic : R) (cs : list event)
    (a : ndarray) :
  fst (into_point a (mkWorld (set_angles m lo la ic) cs))
  = fst (into_point a (mkWorld m cs)).
Proof.
  unfold into_point, call_er_rot, call_f, bind, get_self. cbn.
  destruct (er_coeff_into m); [| reflexivity].
  destruct (as_vec3 a); [| reflexivity]. cbn.
  destruct (f m); [reflexivity |].
  destruct (f_appr m); reflexivity.
Qed.

Lemma from_point_stale (m : Model) (lo la ic : R) (cs : list event)
    (a : ndarray) :
  fst (from_point a (mkWorld (set_angles m lo la ic) cs))
  = fst (from_point a (mkWorld m cs)).
Proof.
  unfold from_point, call_er_rot, call_g, bind, get_self. cbn.
  destruct (as_vec3 a); [| reflexivity]. cbn.
  destruct (er_coeff_from m); [| reflexivity].
  rewrite as_vec3_of_vec3. reflexivity.
Qed.

(** X28: the transforms read the stored coefficients, not the angles.
    Overwriting [lon], [lat] and [inc] changes no result of [transform_into]
    or [transform_from], on any input: the new orientation takes effect only
    when [update_er_coefficients] is called. *)
Theorem X28_angles_are_not_read (m : Model) (lo la ic : R)
    (cs : list event) (x : pyval) :
  fst (transform_into x (mkWorld (set_angles m lo la ic) cs))
  = fst (transform_into x (mkWorld m cs)) /\
  fst (transform_from x (mkWorld (set_angles m lo la ic) cs))
  = fst (transform_from x (mkWorld m cs)).
Proof.
  split.
  - apply (transform_same _ into_point tame_into_point).
    apply into_point_stale.
  - apply (transform_same _ from_point tame_from_point).
    apply from_point_stale.
Qed.
